(** * Mulliken population, density-of-states and bonding analysis (hotbit)

    A shallow embedding of [hotbit/analysis/mulliken.py].

    Conventions of the model.
    - Python floats are the real numbers [R]; Python/numpy complex numbers
      are pairs of reals.  All arithmetic is exact: the definitions give what
      the code computes when no operation rounds.
    - The code runs on IEEE 754 binary64 numbers, where every operation
      rounds.  A result that is one formula evaluated in the code's order is
      described by its reading over [R]; where two results are obtained by
      adding or multiplying the same numbers in different orders, they agree
      over [R] and can differ in the last bits on doubles.  Module [F64] reads
      those methods over binary64, in the order Python and numpy evaluate
      them, and decides such cases.
    - numpy arrays are lists (a matrix is a list of rows).  Indexing with an
      integer or with a list of integers raises [IndexError] out of range;
      slicing never raises and clips.  Indices are natural numbers.
    - Whole-array arithmetic ([A*B], [A-B], [np.dot], [transpose]) is modelled
      on arrays of conforming shapes; the shapes the solver guarantees are
      collected in [wf_state].
    - A Python exception is a [Raise] result; the first exception met wins. *)

From Stdlib Require Import Reals Lra Ascii String PrimFloat.
From stdpp Require Import base option list.
Open Scope R_scope.
Set Warnings "-inexact-float".

(** ** Exceptions *)

Inductive exn : Type :=
| IndexError
| AssertionError
| NotImplementedError
| ValueError
| UnboundLocalError
| AttributeError.

Inductive result (A : Type) : Type :=
| Ok (a : A)
| Raise (err : exn).
Arguments Ok {A} a.
Arguments Raise {A} err.

#[global] Instance result_ret : MRet result := λ A x, Ok x.

#[global] Instance result_bind : MBind result :=
  λ A B f m, match m with Ok a => f a | Raise err => Raise err end.

(** [l[i]] for an integer [i]. *)
Definition idx {A} (l : list A) (i : nat) : result A :=
  match l !! i with Some x => Ok x | None => Raise IndexError end.

(** [l[ix]] for a list of integers [ix] (numpy fancy indexing). *)
Definition fancy {A} (l : list A) (ix : list nat) : result (list A) :=
  mapM (idx l) ix.

(** [l[a:b]]. *)
Definition slice {A} (l : list A) (a b : nat) : list A :=
  take (b - a) (drop a l).

(** [assert b]. *)
Definition py_assert (b : bool) : result unit :=
  if b then Ok tt else Raise AssertionError.

#[global] Instance Rle_decision : RelDecision Rle := Rle_dec.

#[global] Instance Rlt_decision : RelDecision Rlt := Rlt_dec.

(** ** Complex numbers *)

Record C : Type := mkC { Re : R; Im : R }.

Definition C0 : C := mkC 0 0.

Definition RtoC (x : R) : C := mkC x 0.

Definition Cadd (a b : C) : C := mkC (Re a + Re b) (Im a + Im b).

Definition Csub (a b : C) : C := mkC (Re a - Re b) (Im a - Im b).

Definition Cmul (a b : C) : C :=
  mkC (Re a * Re b - Im a * Im b) (Re a * Im b + Im a * Re b).

Definition Cconj (a : C) : C := mkC (Re a) (- Im a).

(** A float times a complex number. *)
Definition Cscale (x : R) (a : C) : C := mkC (x * Re a) (x * Im a).

(** ** numpy helpers *)

(** [l.sum()] and [np.sum(l)], in exact arithmetic, where the order of the
    additions does not matter; [F64.np_sum] is numpy's order on doubles. *)
Definition Rsum (l : list R) : R := foldr Rplus 0 l.

Definition Csum (l : list C) : C := foldr Cadd C0 l.

(** Python's builtin [sum(l)]: a left fold starting from [0], here in exact
    arithmetic; [F64.py_sum] is the same fold on doubles. *)
Definition py_sum (l : list R) : R := foldl Rplus 0 l.

(** [l.min()] and [l.max()] raise [ValueError] on an empty array. *)
Definition np_min (l : list R) : result R :=
  match l with [] => Raise ValueError | x :: l' => Ok (foldl Rmin x l') end.

Definition np_max (l : list R) : result R :=
  match l with [] => Raise ValueError | x :: l' => Ok (foldl Rmax x l') end.

Definition ncols {A} (M : list (list A)) : nat :=
  match M with [] => 0%nat | row :: _ => length row end.

(** [M[:,j]] as a plain list, for a rectangular [M]. *)
Definition column {A} (j : nat) (M : list (list A)) : list A :=
  omap (λ row, row !! j) M.

(** [M[:,j]] with the bounds check. *)
Definition col_idx {A} (M : list (list A)) (j : nat) : result (list A) :=
  mapM (λ row, idx row j) M.

(** [M.transpose()]. *)
Definition transpose {A} (M : list (list A)) : list (list A) :=
  (λ j, column j M) <$> seq 0 (ncols M).

(** [np.sum(v*w)] for two complex vectors. *)
Definition dot (v w : list C) : C := Csum (zip_with Cmul v w).

(** [np.dot(v, M)] for a vector and a matrix. *)
Definition vecmat (v : list C) (M : list (list C)) : list C :=
  dot v <$> transpose M.

(** [np.dot(A, B)] for two matrices. *)
Definition matmul (A B : list (list C)) : list (list C) :=
  (λ row, vecmat row B) <$> A.

(** [A*B], elementwise. *)
Definition hadamard (A B : list (list C)) : list (list C) :=
  zip_with (zip_with Cmul) A B.

(** [A-B], elementwise. *)
Definition msub (A B : list (list C)) : list (list C) :=
  zip_with (zip_with Csub) A B.

(** [A*eps] for a complex matrix [A] and a real matrix [eps]. *)
Definition mscale (A : list (list C)) (eps : list (list R)) : list (list C) :=
  zip_with (zip_with (λ a x, Cscale x a)) A eps.

(** [M[r1:r2, c1:c2]]. *)
Definition block {A} (M : list (list A)) (r1 r2 c1 c2 : nat) : list (list A) :=
  (λ row, slice row c1 c2) <$> slice M r1 r2.

(** [np.sum(M)] for a complex matrix, in exact arithmetic. *)
Definition Csum2 (M : list (list C)) : C := Csum (Csum <$> M).

(** Loops whose body may raise. *)
Fixpoint foldlM {A S} (body : S → A → result S) (l : list A) (s : S) : result S :=
  match l with
  | [] => Ok s
  | x :: l' => s' ← body s x; foldlM body l' s'
  end.

(** ** External collaborators *)

(** Modelled from the spec: the AtomOrbitalMap provider ([calc.el], class
    [Elements], not part of the analysed sources).  Every atom owns the
    contiguous orbital range [[o1, o1+no)] and has a valence electron count;
    every orbital has a reference energy, an angular-momentum tag and a
    free-atom reference population. *)
Record atom_info : Type := mkAtom { o1 : nat; no : nat; valence : R }.

Record orbital_info : Type :=
  mkOrb { energy : R; angmom : nat; free_population : R }.

Record Elements : Type := mkElements {
  el_atoms : list atom_info;
  el_orb : list orbital_info
}.

(** [el.N]. *)
Definition el_N (el : Elements) : nat := length (el_atoms el).

(** [el.norb]. *)
Definition el_norb (el : Elements) : nat := length (el_orb el).

(** [el.orbitals(I, indices=True)]. *)
Definition orbitals_indices (el : Elements) (I : nat) : result (list nat) :=
  a ← idx (el_atoms el) I; Ok (seq (o1 a) (no a)).

(** [el.get_property_lists(['o1','no'])]. *)
Definition get_property_lists (el : Elements) : list (nat * nat) :=
  (λ a, (o1 a, no a)) <$> el_atoms el.

(** [el.get_valences()]. *)
Definition get_valences (el : Elements) : list R := valence <$> el_atoms el.

(** [el.orbitals(mu, basis=True)['energy']]. *)
Definition orbital_energy (el : Elements) (mu : nat) : result R :=
  o ← idx (el_orb el) mu; Ok (energy o).

(** [el.get_free_population(mu)]. *)
Definition get_free_population (el : Elements) (mu : nat) : result R :=
  o ← idx (el_orb el) mu; Ok (free_population o).

(** The converged electronic state [calc.st]; [es_G] is [st.es.G] and
    [occu_mu] is [st.occu.get_mu()]. *)
Record State : Type := mkState {
  st_nk : nat;
  st_norb : nat;
  st_wk : list R;
  st_rho : list (list (list C));
  st_S : list (list (list C));
  st_H0 : list (list (list C));
  st_wf : list (list (list C));
  st_e : list (list R);
  st_f : list (list R);
  st_dq : list R;
  es_G : list (list R);
  occu_mu : R
}.

(** The calculator.  [rep_energy] is [calc.rep.get_pair_repulsive_energy],
    [pp_energy] is [calc.pp.get_pair_energy], [coulomb_potential] is what
    [DirectCoulomb(gamma_cut)] returns from [get_potential()] once updated
    with the atoms and [st.dq], [scc] is [calc.get('SCC')]. *)
Record Calc : Type := mkCalc {
  st : State;
  el : Elements;
  fermi_level : R;
  scc : bool;
  rep_energy : nat → nat → R;
  pp_energy : nat → nat → R;
  coulomb_potential : list R
}.

(** The array shapes the solver guarantees. *)
Definition shape2 {A} (r c : nat) (M : list (list A)) : Prop :=
  length M = r ∧ Forall (λ row, length row = c) M.

Definition shape3 {A} (n r c : nat) (T : list (list (list A))) : Prop :=
  length T = n ∧ Forall (shape2 r c) T.

Record wf_state (s : State) : Prop := mk_wf_state {
  wf_wk : length (st_wk s) = st_nk s;
  wf_rho : shape3 (st_nk s) (st_norb s) (st_norb s) (st_rho s);
  wf_S : shape3 (st_nk s) (st_norb s) (st_norb s) (st_S s);
  wf_H0 : shape3 (st_nk s) (st_norb s) (st_norb s) (st_H0 s);
  wf_wf : shape3 (st_nk s) (st_norb s) (st_norb s) (st_wf s);
  wf_e : shape2 (st_nk s) (st_norb s) (st_e s);
  wf_f : shape2 (st_nk s) (st_norb s) (st_f s)
}.

(** ** class MullikenAnalysis *)

Record MullikenAnalysis : Type := mkMulliken {
  calc : Calc;
  N : nat;
  nk : nat;
  wk : list R;
  norb : nat;
  diag : list R;
  aux : list (list (list R))
}.

(** [( st.rho[k]*st.S[k].transpose() ).sum(axis=1).real] *)
Definition diag_k (rho_k S_k : list (list C)) : list R :=
  (λ row, Re (Csum row)) <$> hadamard rho_k (transpose S_k).

(** One round of [for k in range(self.nk)]: [self.diag += self.wk[k]*diag_k]. *)
Definition diag_step (s : State) (d : list R) (k : nat) : result (list R) :=
  rho_k ← idx (st_rho s) k;
  S_k ← idx (st_S s) k;
  w ← idx (st_wk s) k;
  Ok (zip_with Rplus d (Rmult w <$> diag_k rho_k S_k)).

(** [( wfc[k,a] * np.dot(wf[k,a],st.S[k].transpose()) ).real] *)
Definition aux_row (s : State) (k a : nat) : result (list R) :=
  wf_k ← idx (st_wf s) k;
  wf_ka ← idx wf_k a;
  S_k ← idx (st_S s) k;
  Ok (Re <$> zip_with Cmul (Cconj <$> wf_ka) (vecmat wf_ka (transpose S_k))).

(** [MullikenAnalysis.__init__].  The two nested loops assign every
    [self.aux[k,a]] exactly once, in order. *)
Definition MullikenAnalysis_init (c : Calc) : result MullikenAnalysis :=
  let s := st c in
  let norb := st_norb s in
  d ← foldlM (diag_step s) (seq 0 (st_nk s)) (replicate norb 0);
  ax ← mapM (λ k, mapM (λ a, aux_row s k a) (seq 0 norb)) (seq 0 (st_nk s));
  Ok (mkMulliken c (el_N (el c)) (st_nk s) (st_wk s) norb d ax).

(** [get_atoms_mulliken] *)
Definition get_atoms_mulliken (m : MullikenAnalysis) : list R :=
  let q := (λ '(o1, no), Rsum (slice (diag m) o1 (o1 + no)))
             <$> get_property_lists (el (calc m)) in
  zip_with Rminus q (get_valences (el (calc m))).

(** [get_atom_mulliken] *)
Definition get_atom_mulliken (m : MullikenAnalysis) (I : nat) : result R :=
  orbs ← orbitals_indices (el (calc m)) I;
  all ← fancy (diag m) orbs;
  Ok (py_sum all).

(** [get_basis_mulliken] *)
Definition get_basis_mulliken (m : MullikenAnalysis) (mu : nat) : result R :=
  idx (diag m) mu.

(** The s, p, d partition shared by [get_atom_all_angmom_mulliken] and
    [get_atom_wf_all_angmom_mulliken]:
    [pop = np.zeros((3,)); pop[0] = all[0];
     if len(all)>1: pop[1] = all[1:4].sum();
     if len(all)>4: pop[2] = all[4:].sum()]. *)
Definition angmom_pop (all : list R) : result (list R) :=
  let pop := replicate 3 0 in
  a0 ← idx all 0;
  let pop := <[0%nat := a0]> pop in
  let pop := if decide (1 < length all)%nat
             then <[1%nat := Rsum (slice all 1 4)]> pop else pop in
  let pop := if decide (4 < length all)%nat
             then <[2%nat := Rsum (drop 4 all)]> pop else pop in
  Ok pop.

(** [get_atom_all_angmom_mulliken] *)
Definition get_atom_all_angmom_mulliken (m : MullikenAnalysis) (I : nat)
  : result (list R) :=
  orbs ← orbitals_indices (el (calc m)) I;
  all ← fancy (diag m) orbs;
  angmom_pop all.

(** [w = 1.0; if wk: w = self.wk[k]] *)
Definition k_weight (m : MullikenAnalysis) (k : nat) (use_wk : bool) : result R :=
  if use_wk then idx (wk m) k else Ok 1.

(** [self.aux[k,a]] *)
Definition aux_ka (m : MullikenAnalysis) (k a : nat) : result (list R) :=
  aux_k ← idx (aux m) k; idx aux_k a.

(** [get_basis_wf_mulliken] *)
Definition get_basis_wf_mulliken (m : MullikenAnalysis) (mu k a : nat)
  (use_wk : bool) : result R :=
  w ← k_weight m k use_wk;
  row ← aux_ka m k a;
  x ← idx row mu;
  Ok (w * x).

(** [get_atom_wf_mulliken] for an atom index [I]. *)
Definition get_atom_wf_mulliken (m : MullikenAnalysis) (I k a : nat)
  (use_wk : bool) : result R :=
  w ← k_weight m k use_wk;
  orbs ← orbitals_indices (el (calc m)) I;
  row ← aux_ka m k a;
  sel ← fancy row orbs;
  Ok (w * Rsum sel).

(** [get_atom_wf_mulliken] for [I = None]: the array over all atoms. *)
Definition get_atom_wf_mulliken_all (m : MullikenAnalysis) (k a : nat)
  (use_wk : bool) : result (list R) :=
  w ← k_weight m k use_wk;
  mapM (λ i, get_atom_wf_mulliken m i k a use_wk) (seq 0 (N m)).

(** [get_atom_wf_all_orbital_mulliken] *)
Definition get_atom_wf_all_orbital_mulliken (m : MullikenAnalysis) (I k a : nat)
  (use_wk : bool) : result (list R) :=
  w ← k_weight m k use_wk;
  orbs ← orbitals_indices (el (calc m)) I;
  mapM (λ mu, row ← aux_ka m k a; x ← idx row mu; Ok (w * x)) orbs.

(** [get_atom_wf_all_angmom_mulliken] *)
Definition get_atom_wf_all_angmom_mulliken (m : MullikenAnalysis) (I k a : nat)
  (use_wk : bool) : result (list R) :=
  all ← get_atom_wf_all_orbital_mulliken m I k a use_wk;
  angmom_pop all.

Section Engines.

(** [ase.units.Hartree] and [ase.units.Bohr]. *)
Variables (Hartree Bohr : R).

(** [box.mix.broaden(x, y, width=, N=, a=, b=)]: Gaussian broadening of the
    samples [(x_i, y_i)] onto a grid of [N] points over [[a, b]]; returns the
    grid and the broadened curve. *)
Variable broaden : list R → list R → R → nat → R → R → list R * list R.

(** ** class DensityOfStates(MullikenAnalysis) *)

Record DensityOfStates : Type := mkDos {
  dos_base : MullikenAnalysis;
  dos_e : list (list R);
  eflat : list R;
  emin : R;
  emax : R
}.

(** [DensityOfStates.__init__] *)
Definition DensityOfStates_init (c : Calc) : result DensityOfStates :=
  m ← MullikenAnalysis_init c;
  let e := fmap (M := list) (fmap (M := list) (λ x, x * Hartree - fermi_level c))
             (st_e (st c)) in
  let eflat := mjoin e in
  mn ← np_min eflat;
  mx ← np_max eflat;
  Ok (mkDos m e eflat mn mx).

(** [mn, mx = self.emin, self.emax; if window is not None: mn, mx = window] *)
Definition dos_window (d : DensityOfStates) (window : option (R * R)) : R * R :=
  match window with Some w => w | None => (emin d, emax d) end.

(** [dest[i,:] = y]: [y] must have the row's length or length one. *)
Definition assign_row (npts : nat) (y : list R) : result (list R) :=
  if decide (length y = npts) then Ok y
  else match y with [v] => Ok (replicate npts v) | _ => Raise ValueError end.

(** [M.sum(axis=0)] for an array of shape [(_, npts)]. *)
Definition sum_axis0 (npts : nat) (M : list (list R)) : list R :=
  foldl (zip_with Rplus) (replicate npts 0) M.

(** The states within the window, as [zip(kl, al, el)]. *)
Definition states_in_window (d : DensityOfStates) (mn mx : R)
  : result (list (nat * nat * R)) :=
  let m := dos_base d in
  cells ← mapM (λ k, mapM (λ a, e_k ← idx (dos_e d) k; x ← idx e_k a;
                                  Ok (k, a, x)) (seq 0 (norb m)))
               (seq 0 (nk m));
  Ok (filter (λ c, mn <= c.2 ∧ c.2 <= mx) (mjoin cells)).

(** The body of [for i in range(self.N)] in [get_local_density_of_states]:
    the grid last returned by [mix.broaden], the row [ldos[i,:]] and the rows
    [pldos[i,l]].  [q[:,l]] raises [IndexError] when [q] is an empty array. *)
Definition ldos_atom (d : DensityOfStates) (projected : bool) (width : R)
  (npts : nat) (mn mx : R) (sel : list (nat * nat * R)) (i : nat)
  : result (list R * list R * list (list R)) :=
  let m := dos_base d in
  let el := (λ c : nat * nat * R, c.2) <$> sel in
  q ← mapM (λ c : nat * nat * R, get_atom_wf_mulliken m i c.1.1 c.1.2 true) sel;
  let r := broaden el q width npts mn mx in
  row ← assign_row npts r.2;
  if projected then
    qa ← mapM (λ c : nat * nat * R,
                 get_atom_wf_all_angmom_mulliken m i c.1.1 c.1.2 true) sel;
    prows ← mapM (λ l, ql ← (if decide (qa = []) then Raise IndexError
                              else col_idx qa l);
                       let r := broaden el ql width npts mn mx in
                       prow ← assign_row npts r.2;
                       Ok (r.1, prow)) (seq 0 3);
    Ok (default r.1 (last (fst <$> prows)), row, snd <$> prows)
  else Ok (r.1, row, []).

(** [np.all( abs(ldos-pldos.sum(axis=1))<1E-6 )] *)
Definition ldos_consistent (npts : nat) (ldos : list (list R))
  (pldos : list (list (list R))) : bool :=
  bool_decide (Forall (Forall (λ x, Rabs x < 1e-6))
                 (zip_with (zip_with Rminus) ldos (sum_axis0 npts <$> pldos))).

(** [get_local_density_of_states]; [egrid] is unbound when there is no atom. *)
Definition get_local_density_of_states (d : DensityOfStates) (projected : bool)
  (width : R) (window : option (R * R)) (npts : nat)
  : result (list R * list (list R) * option (list (list (list R)))) :=
  let '(mn, mx) := dos_window d window in
  sel ← states_in_window d mn mx;
  rows ← mapM (ldos_atom d projected width npts mn mx sel) (seq 0 (N (dos_base d)));
  let ldos := (λ r : list R * list R * list (list R), r.1.2) <$> rows in
  let pldos := (λ r : list R * list R * list (list R), r.2) <$> rows in
  let egrid := last ((λ r : list R * list R * list (list R), r.1.1) <$> rows) in
  if projected then
    _ ← py_assert (ldos_consistent npts ldos pldos);
    match egrid with
    | Some g => Ok (g, ldos, Some pldos)
    | None => Raise UnboundLocalError
    end
  else
    match egrid with
    | Some g => Ok (g, ldos, None)
    | None => Raise UnboundLocalError
    end.

(** What [get_density_of_states] returns: [e,dos], [e,dos,f] or
    [e,dos,pdos]. *)
Inductive dos_output : Type :=
| DosPlain (e dos : list R)
| DosOccu (e dos f : list R)
| DosProjected (e dos : list R) (pdos : list (list R)).

(** [get_density_of_states] *)
Definition get_density_of_states (d : DensityOfStates)
  (broaden_flag projected occu : bool) (width : R) (window : option (R * R))
  (npts : nat) : result dos_output :=
  if (broaden_flag && occu) || (projected && occu) then Raise AssertionError
  else if projected then
    r ← get_local_density_of_states d true width window npts;
    let dos := r.1.2 in
    let pdos := default [] r.2 in
    Ok (DosProjected r.1.1 (sum_axis0 npts dos)
          (foldl (zip_with (zip_with Rplus)) (replicate 3 (replicate npts 0)) pdos))
  else
    let '(mn, mx) := dos_window d window in
    let c := calc (dos_base d) in
    xyf ← foldlM (λ (acc : list R * list R * list R) a,
                    xa ← col_idx (dos_e d) a;
                    fa ← col_idx (st_f (st c)) a;
                    Ok (acc.1.1 ++ xa, acc.1.2 ++ st_wk (st c), acc.2 ++ fa))
                 (seq 0 (el_norb (el c))) ([], [], []);
    let x := xyf.1.1 in
    let y := xyf.1.2 in
    let f := xyf.2 in
    let r := if broaden_flag then broaden x y width npts mn mx else (x, y) in
    if occu then Ok (DosOccu r.1 r.2 f) else Ok (DosPlain r.1 r.2).

(** ** class MullikenBondAnalysis(MullikenAnalysis) *)

Record MullikenBondAnalysis : Type := mkBond {
  bond_base : MullikenAnalysis;
  rhoSk : list (list (list C));
  rhoM : list (list (list C));
  HS : list (list (list C));
  epsilon : list R;
  SCC : bool
}.

(** [aux = epsilon.repeat(n).reshape(n,n); eps = 0.5*(aux+aux.transpose())] *)
Definition eps_matrix (n : nat) (epsilon : list R) : list (list R) :=
  let aux := (λ x, replicate n x) <$> epsilon in
  zip_with (zip_with (λ x y, 0.5 * (x + y))) aux (transpose aux).

(** [self.st.H0[k] - self.st.S[k]*eps] *)
Definition HS_k (H0_k S_k : list (list C)) (eps : list (list R)) : list (list C) :=
  msub H0_k (mscale S_k eps).

(** [MullikenBondAnalysis.__init__]; one round of [for k in range(self.nk)]
    appends to [rhoSk], [HS] and [rhoM]. *)
Definition MullikenBondAnalysis_init (c : Calc) : result MullikenBondAnalysis :=
  m ← MullikenAnalysis_init c;
  let s := st c in
  let n := st_norb s in
  epsilon ← mapM (orbital_energy (el c)) (seq 0 (norb m));
  let eps := eps_matrix n epsilon in
  ks ← mapM (λ k, rho_k ← idx (st_rho s) k;
                  S_k ← idx (st_S s) k;
                  H0_k ← idx (st_H0 s) k;
                  Ok (matmul rho_k S_k,
                      HS_k H0_k S_k eps,
                      hadamard rho_k (transpose (HS_k H0_k S_k eps))))
            (seq 0 (nk m));
  let rhoSk := (λ t : list (list C) * list (list C) * list (list C), t.1.1) <$> ks in
  let HS := (λ t : list (list C) * list (list C) * list (list C), t.1.2) <$> ks in
  let rhoM := (λ t : list (list C) * list (list C) * list (list C), t.2) <$> ks in
  Ok (mkBond m rhoSk rhoM HS epsilon (scc c)).

(** [T[k,mu,nu]] *)
Definition idx3 {A} (T : list (list (list A))) (k mu nu : nat) : result A :=
  T_k ← idx T k; row ← idx T_k mu; idx row nu.

(** [enumerate(l)] *)
Definition enumerate {A} (l : list A) : list (nat * A) := zip (seq 0 (length l)) l.

(** [get_mayer_bond_order]; [i] and [j] are integers by their type.
    [F64.get_mayer_bond_order] is the same loop on doubles. *)
Definition get_mayer_bond_order (b : MullikenBondAnalysis) (i j : nat) : result R :=
  let m := bond_base b in
  orbi ← orbitals_indices (el (calc m)) i;
  orbj ← orbitals_indices (el (calc m)) j;
  M ← foldlM (λ M k,
         foldlM (λ M mu,
           foldlM (λ M nu,
             w ← idx (wk m) k;
             x ← idx3 (rhoSk b) k mu nu;
             y ← idx3 (rhoSk b) k nu mu;
             Ok (Cadd M (Cmul (Cscale w x) y))) orbj M) orbi M)
       (seq 0 (nk m)) C0;
  _ ← py_assert (bool_decide (Rabs (Im M) < 1e-12));
  Ok (Re M).

(** [get_promotion_energy] for an atom index [I]; [e] is a float, so
    [e.imag] is zero. *)
Definition get_promotion_energy (b : MullikenBondAnalysis) (I : nat) : result R :=
  let m := bond_base b in
  orbs ← orbitals_indices (el (calc m)) I;
  e ← foldlM (λ e mu,
         q ← get_basis_mulliken m mu;
         q0 ← get_free_population (el (calc m)) mu;
         emu ← orbital_energy (el (calc m)) mu;
         Ok (e + (q - q0) * emu)) orbs 0;
  _ ← py_assert (bool_decide (Rabs 0 < 1e-12));
  Ok (e * Hartree).

(** [get_atom_energy] for an atom index [I].  The unused lookup
    [el.elements[el.symbols[I]]] raises for the same indices as
    [get_property_lists(...)[I]].  The imaginary part the assertion looks at
    is the exact one; on doubles [np.sum] can leave a rounding residue
    there. *)
Definition get_atom_energy (b : MullikenBondAnalysis) (I : nat) : result R :=
  let m := bond_base b in
  let c := calc m in
  coul ← (if SCC b then
            G_I ← idx (es_G (st c)) I;
            G_II ← idx G_I I;
            dq_I ← idx (st_dq (st c)) I;
            pot ← idx (coulomb_potential c) I;
            Ok (0.5 * G_II * dq_I ^ 2 + 0.5 * dq_I * pot * Bohr)
          else Ok 0);
  p ← idx (get_property_lists (el c)) I;
  let '(o1, no) := p in
  eorb ← foldlM (λ eorb kw,
            M ← idx (rhoM b) kw.1;
            Ok (Cadd eorb (Cscale kw.2 (Csum2 (block M o1 (o1 + no) o1 (o1 + no))))))
          (enumerate (wk m)) C0;
  let erep := rep_energy c I I in
  let epp := pp_energy c I I in
  prom ← get_promotion_energy b I;
  let A := Cadd (Cscale Hartree (Cadd (RtoC (coul + erep + epp)) eorb)) (RtoC prom) in
  _ ← py_assert (bool_decide (Rabs (Im A) < 1e-12));
  Ok (Re A).

(** [get_atom_energy] for [I = None]. *)
Definition get_atom_energy_all (b : MullikenBondAnalysis) : result (list R) :=
  mapM (get_atom_energy b) (seq 0 (N (bond_base b))).

(** [get_bond_energy]; [F64.get_bond_energy] is the same on doubles. *)
Definition get_bond_energy (b : MullikenBondAnalysis) (i j : nat) : result R :=
  let m := bond_base b in
  let c := calc m in
  let rep := rep_energy c i j in
  let epp := pp_energy c i j in
  coul ← (if SCC b then
            G_i ← idx (es_G (st c)) i;
            G_ij ← idx G_i j;
            dq_i ← idx (st_dq (st c)) i;
            dq_j ← idx (st_dq (st c)) j;
            Ok (G_ij * dq_i * dq_j)
          else Ok 0);
  pi ← idx (get_property_lists (el c)) i;
  pj ← idx (get_property_lists (el c)) j;
  let '(o1i, noi) := pi in
  let '(o1j, noj) := pj in
  ebs ← foldlM (λ ebs kw,
           M ← idx (rhoM b) kw.1;
           Ok (ebs + 2 * kw.2 *
                 Rsum (Rsum <$> (fmap (M := list) (fmap (M := list) Re)
                                   (block M o1i (o1i + noi) o1j (o1j + noj))))))
         (enumerate (wk m)) 0;
  Ok ((rep + epp + coul + ebs) * Hartree).

(** [get_atom_and_bond_energy] for an atom index [i]. *)
Definition get_atom_and_bond_energy (b : MullikenBondAnalysis) (i : nat) : result R :=
  ea ← get_atom_energy b i;
  eb ← foldlM (λ eb j,
          if decide (j = i) then Ok eb
          else e ← get_bond_energy b i j; Ok (eb + 0.5 * e))
        (seq 0 (N (bond_base b))) 0;
  Ok (ea + eb).

(** The partitioning mode of [get_covalent_energy], decoded once from the
    mode string together with the tables the mode prepares before the loops:
    [lorbs[i]] and [oj] for ['angmom'], the orbital ranges for ['atoms']. *)
Inductive cov_mode : Type :=
| ModeDefault
| ModeOrbitals
| ModeAtoms (o1i noi o1j noj : nat)
| ModeAngmom (lorbs_i oj : list nat)
| ModeUnknown.

(** [lorbs = [[],[],[]];
     for m,orb in enumerate(self.calc.el.orbitals()):
         lorbs[orb['angmom']].append(m)] *)
Definition build_lorbs (e : Elements) : result (list (list nat)) :=
  foldlM (λ lorbs mo,
            l ← idx lorbs (angmom mo.2);
            Ok (<[angmom mo.2 := l ++ [mo.1]]> lorbs))
         (enumerate (el_orb e)) [[]; []; []].

(** The part of [get_covalent_energy] between the window and the loops. *)
Definition cov_prepare (b : MullikenBondAnalysis) (mode : string) (i j : nat)
  : result cov_mode :=
  let e := el (calc (bond_base b)) in
  if String.eqb mode "angmom" then
    lorbs ← build_lorbs e;
    oi ← idx lorbs i;
    oj ← idx lorbs j;
    Ok (ModeAngmom oi oj)
  else if String.eqb mode "atoms" then
    pi ← idx (get_property_lists e) i;
    pj ← idx (get_property_lists e) j;
    Ok (ModeAtoms pi.1 pi.2 pj.1 pj.2)
  else if String.eqb mode "default" then Ok ModeDefault
  else if String.eqb mode "orbitals" then Ok ModeOrbitals
  else Ok ModeUnknown.

(** [wf[k,a,m]*wf[k,a,n].conj()*self.HS[k,n,m]] *)
Definition cov_term (b : MullikenBondAnalysis) (k a m n : nat) : result C :=
  let wf := st_wf (st (calc (bond_base b))) in
  wm ← idx3 wf k a m;
  wn ← idx3 wf k a n;
  h ← idx3 (HS b) k n m;
  Ok (Cmul (Cmul wm (Cconj wn)) h).

(** The covalent energy of eigenstate [(k,a)]: the [if mode == ...] chain in
    the loop body.  In mode ['angmom'], indexing with the empty float array
    [oj] raises [IndexError], and [e.conj()] on the float [0.0] that [e]
    still is after an empty loop raises [AttributeError]. *)
Definition cov_state (b : MullikenBondAnalysis) (md : cov_mode) (i j k : nat)
  (w : R) (a : nat) : result C :=
  let m := bond_base b in
  let wf := st_wf (st (calc m)) in
  match md with
  | ModeDefault =>
      foldlM (λ e mu,
                wm ← idx3 wf k a mu;
                wf_k ← idx wf k;
                wf_ka ← idx wf_k a;
                HS_k ← idx (HS b) k;
                col ← col_idx HS_k mu;
                Ok (Cadd e (Cscale w
                      (Csum (zip_with Cmul ((λ z, Cmul wm (Cconj z)) <$> wf_ka) col)))))
             (seq 0 (norb m)) C0
  | ModeOrbitals =>
      if decide (i ≠ j) then
        t ← cov_term b k a i j; Ok (RtoC (w * 2 * Re t))
      else
        wi ← idx3 wf k a i;
        wj ← idx3 wf k a j;
        h ← idx3 (HS b) k j i;
        Ok (Cmul (Cmul (Cscale w wi) (Cconj wj)) h)
  | ModeAtoms o1i noi o1j noj =>
      if decide (i ≠ j) then
        foldlM (λ e mu, foldlM (λ e nu,
                  t ← cov_term b k a mu nu; Ok (Cadd e (RtoC (w * 2 * Re t))))
                (seq o1j noj) e) (seq o1i noi) C0
      else
        foldlM (λ e mu, foldlM (λ e nu,
                  t ← cov_term b k a mu nu; Ok (Cadd e (Cscale w t)))
                (seq o1j noj) e) (seq o1i noi) C0
  | ModeAngmom lorbs_i oj =>
      e ← foldlM (λ e mu,
             wm ← idx3 wf k a mu;
             _ ← (if decide (oj = []) then Raise IndexError else Ok tt);
             wf_k ← idx wf k;
             wf_ka ← idx wf_k a;
             wo ← fancy wf_ka oj;
             HS_k ← idx (HS b) k;
             rows ← fancy HS_k oj;
             h ← col_idx rows mu;
             Ok (Cadd e (Cscale w
                   (Csum (zip_with Cmul ((λ z, Cmul wm (Cconj z)) <$> wo) h)))))
           lorbs_i C0;
      if decide (i ≠ j) then
        if decide (lorbs_i = []) then Raise AttributeError
        else Ok (Cadd e (Cconj e))
      else Ok e
  | ModeUnknown => Raise NotImplementedError
  end.

(** [get_covalent_energy].  [i] and [j] are read only by the modes that
    take indices, where they are integers; [Hartree] is not zero. *)
Definition get_covalent_energy (b : MullikenBondAnalysis) (mode : string)
  (i j : nat) (width : option R) (window : option (R * R)) (npts : nat)
  : result (list R * list R) :=
  let m := bond_base b in
  let s := st (calc m) in
  let eps := 1e-6 in
  let energy := fmap (M := list) (fmap (M := list) (λ x, x - occu_mu s)) (st_e s) in
  mnmx ← match window with
         | None =>
             lo ← np_min (mjoin energy);
             hi ← np_max (mjoin energy);
             Ok (lo - eps, hi + eps)
         | Some w => Ok (w.1 / Hartree, w.2 / Hartree)
         end;
  let '(mn, mx) := mnmx in
  md ← cov_prepare b mode i j;
  xy ← foldlM (λ xy kw,
          foldlM (λ (xy : list R * list C) a,
             e_k ← idx energy kw.1;
             en ← idx e_k a;
             if decide (mn <= en ∧ en <= mx) then
               y ← cov_state b md i j kw.1 kw.2 a;
               Ok (xy.1 ++ [en], xy.2 ++ [y])
             else Ok xy)
          (seq 0 (norb m)) xy)
        (enumerate (wk m)) ([], []);
  _ ← py_assert (bool_decide (Forall (λ y, Rabs (Im y) < 1e-12) xy.2));
  let x := xy.1 in
  let y := Re <$> xy.2 in
  match width with
  | None => Ok ((λ v, v * Hartree) <$> x, (λ v, v * Hartree) <$> y)
  | Some wd =>
      let r := broaden x y (wd / Hartree) npts mn mx in
      Ok ((λ v, v * Hartree) <$> r.1, (λ v, v * Hartree) <$> r.2)
  end.

End Engines.

(** ** Reading the arrays in statements *)

(** [T[k,a,mu]], zero where the entry does not exist. *)
Definition at3 (T : list (list (list C))) (k a mu : nat) : C :=
  default C0 (T_k ← T !! k; row ← T_k !! a; row !! mu).

(** [Re( conj(wf[k,a,mu]) * Sum_nu wf[k,a,nu] * S[k][mu,nu] )]. *)
Definition aux_value (s : State) (k a mu : nat) : R :=
  Re (Cmul (Cconj (at3 (st_wf s) k a mu))
        (Csum ((λ nu, Cmul (at3 (st_wf s) k a nu) (at3 (st_S s) k mu nu))
                 <$> seq 0 (st_norb s)))).

(** The specification's [aux[k,a,mu]], in its own words:
    [Re( wf[k,a,mu] * Sum_nu wf[k,a,nu] * S[k][mu,nu] )]. *)
Definition spec_aux (s : State) (k a mu : nat) : R :=
  Re (Cmul (at3 (st_wf s) k a mu)
        (Csum ((λ nu, Cmul (at3 (st_wf s) k a nu) (at3 (st_S s) k mu nu))
                 <$> seq 0 (st_norb s)))).

(** The atoms' orbital ranges, one after the other. *)
Definition all_atom_orbitals (e : Elements) : list nat :=
  mjoin ((λ a, seq (o1 a) (no a)) <$> el_atoms e).

(** The atoms' orbital ranges partition [[0, norb)]. *)
Definition orbital_partition (e : Elements) (norb : nat) : Prop :=
  all_atom_orbitals e ≡ₚ seq 0 norb.

(** [M[mu,nu]] where it exists. *)
Definition get2 {A} (M : list (list A)) (mu nu : nat) : option A :=
  row ← M !! mu; row !! nu.

(** [M] equals its conjugate transpose, entry by entry. *)
Definition hermitian (M : list (list C)) : Prop :=
  ∀ mu nu x, get2 M mu nu = Some x → get2 M nu mu = Some (Cconj x).

(** [G] equals its transpose, entry by entry. *)
Definition symmetric (G : list (list R)) : Prop :=
  ∀ i j, get2 G i j = get2 G j i.

(** [wk[k]], zero where the entry does not exist. *)
Definition wk_at (s : State) (k : nat) : R := default 0 (st_wk s !! k).

(** The table [self.aux] of a well-shaped state. *)
Definition aux_table (s : State) : list (list (list R)) :=
  (λ k, (λ a, (λ mu, aux_value s k a mu) <$> seq 0 (st_norb s))
          <$> seq 0 (st_norb s)) <$> seq 0 (st_nk s).

(** One term of the Mayer bond order. *)
Definition mayer_term (b : MullikenBondAnalysis) (k mu nu : nat) : C :=
  Cmul (Cscale (default 0 (wk (bond_base b) !! k)) (at3 (rhoSk b) k mu nu))
       (at3 (rhoSk b) k nu mu).

(** [Re M[mu,nu]], zero where the entry does not exist. *)
Definition re_at (M : list (list C)) (mu nu : nat) : R :=
  from_option Re 0 (get2 M mu nu).

(** ** The remaining functions of the module *)

(** ['c' in l] for a one-letter string ['c']. *)
Definition has_letter (c : Ascii.ascii) (l : string) : bool :=
  existsb (Ascii.eqb c) (list_ascii_of_string l).

(** [get_angular_momenta] *)
Definition get_angular_momenta (l : string) : list nat :=
  let ret := [] in
  let ret := if has_letter "s"%char l then ret ++ [0%nat] else ret in
  let ret := if has_letter "p"%char l then ret ++ [1%nat] else ret in
  let ret := if has_letter "d"%char l then ret ++ [2%nat] else ret in
  ret.

(** ** Further quantities the statements speak of *)

(** [Sum_k wk[k] * Re( Sum_nu rho[k][mu,nu] * S[k][nu,mu] )]. *)
Definition diag_value (s : State) (mu : nat) : R :=
  Rsum ((λ k, wk_at s k *
              Re (Csum ((λ nu, Cmul (at3 (st_rho s) k mu nu) (at3 (st_S s) k nu mu))
                          <$> seq 0 (st_norb s))))
          <$> seq 0 (st_nk s)).

(** The loop once the eigenvalue lookups are resolved: [val c] is the energy
    of cell [c] and [F c] its covalent energy. *)
Definition cov_loop_body {A} (P : R → Prop) `{∀ x, Decision (P x)}
  (val : A → R) (F : A → result C) (xy : list R * list C) (c : A)
  : result (list R * list C) :=
  if decide (P (val c)) then y ← F c; Ok (xy.1 ++ [val c], xy.2 ++ [y])
  else Ok xy.

(** [energy = self.st.e - self.st.occu.get_mu()] *)
Definition cov_energy (s : State) : list (list R) :=
  fmap (M := list) (fmap (M := list) (λ x, x - occu_mu s)) (st_e s).

(** The pairs [((k, wk[k]), a)] the two loops of [get_covalent_energy] visit. *)
Definition cov_cells (m : MullikenAnalysis) : list (nat * R * nat) :=
  mjoin ((λ kw, (λ a, (kw, a)) <$> seq 0 (norb m)) <$> enumerate (wk m)).

(** [energy[k,a]] of a visited pair, zero where it does not exist. *)
Definition cov_val (s : State) (c : nat * R * nat) : R :=
  default 0 (get2 (cov_energy s) c.1.1 c.2).

(** ** Example systems *)

(** The imaginary unit. *)
Definition Ci : C := mkC 0 1.

(** Two atoms with one s orbital each, one k-point, Hermitian matrices with
    imaginary off-diagonal entries. *)
Definition ex_state : State :=
  mkState 1 2 [1]
    [[[RtoC 1; Ci]; [Cconj Ci; RtoC 1]]]
    [[[RtoC 1; mkC 0 0.5]; [mkC 0 (-0.5); RtoC 1]]]
    [[[RtoC 1; Ci]; [Cconj Ci; RtoC (-1)]]]
    [[[RtoC 1; Ci]; [Ci; RtoC 1]]]
    [[-1; 1]] [[1; 0]] [0.25; -0.25] [[1; 0.5]; [0.5; 1]] 0.

Definition ex_el : Elements :=
  mkElements [mkAtom 0 1 1; mkAtom 1 1 1] [mkOrb 1 0 1; mkOrb (-1) 0 1].

Definition ex_calc : Calc :=
  mkCalc ex_state ex_el 0 true (λ _ _, 0.25) (λ _ _, 0) [0; 0].

(** What the three constructors build from [ex_calc]. *)
Definition ex_m : MullikenAnalysis :=
  mkMulliken ex_calc 2 1 [1] 2 [1.5; 1.5] [[[0.5; 0.5]; [1.5; 1.5]]].

Definition ex_bond : MullikenBondAnalysis :=
  mkBond ex_m [[[RtoC 1.5; mkC 0 1.5]; [mkC 0 (-1.5); RtoC 1.5]]]
    [[[C0; RtoC 1]; [RtoC 1; C0]]]
    [[[C0; Ci]; [Cconj Ci; C0]]] [1; -1] true.

Definition ex_dos : DensityOfStates :=
  mkDos ex_m [[-1; 1]] [-1; 1] (-1) 1.

(** A stand-in for [mix.broaden] that can be evaluated: every sample adds
    its weight over the width to every grid point. *)
Definition box_broaden (x y : list R) (width : R) (N : nat) (a b : R)
  : list R * list R :=
  (replicate N a, replicate N (Rsum y / width)).

(** A diagonal matrix. *)
Definition diag_matrix (d : list R) : list (list C) :=
  imap (λ i x, <[i := RtoC x]> (replicate (length d) C0)) d.

(** One atom with an s, three p and five d orbitals. *)
Definition spd_occ : list R := [1; 0.5; 0.5; 0.5; 2; 2; 2; 2; 2].

Definition spd_state : State :=
  mkState 1 9 [1] [diag_matrix spd_occ] [diag_matrix (replicate 9 1)]
    [diag_matrix (replicate 9 0)] [diag_matrix (replicate 9 1)]
    [replicate 9 0] [replicate 9 1] [0] [[0]] 0.

Definition spd_calc : Calc :=
  mkCalc spd_state
    (mkElements [mkAtom 0 9 11]
       ([mkOrb 0 0 1] ++ replicate 3 (mkOrb 0 1 0) ++ replicate 5 (mkOrb 0 2 2)))
    0 false (λ _ _, 0) (λ _ _, 0) [0].

Definition spd_m : MullikenAnalysis :=
  mkMulliken spd_calc 1 1 [1] 9 spd_occ
    [(λ a, <[a := 1]> (replicate 9 0)) <$> seq 0 9].

(** What [get_local_density_of_states] returns on [ex_dos] with
    [box_broaden], two grid points and width one. *)
Definition ex_ldos : list R * list (list R) * option (list (list (list R))) :=
  ([-1; -1], [[2; 2]; [2; 2]],
   Some [[[2; 2]; [0; 0]; [0; 0]]; [[2; 2]; [0; 0]; [0; 0]]]).

(** [ex_calc] with an element table whose second atom claims an orbital the
    state does not have. *)
Definition clip_calc : Calc :=
  mkCalc ex_state
    (mkElements [mkAtom 0 1 1; mkAtom 1 2 1] [mkOrb 1 0 1; mkOrb (-1) 0 1])
    0 true (λ _ _, 0.25) (λ _ _, 0) [0; 0].

Definition clip_m : MullikenAnalysis :=
  mkMulliken clip_calc 2 1 [1] 2 [1.5; 1.5] [[[0.5; 0.5]; [1.5; 1.5]]].

(** A calculator without k-points, atoms or orbitals. *)
Definition empty_calc : Calc :=
  mkCalc (mkState 0 0 [] [] [] [] [] [] [] [] [] 0) (mkElements [] [])
    0 false (λ _ _, 0) (λ _ _, 0) [].

Definition empty_m : MullikenAnalysis := mkMulliken empty_calc 0 0 [] 0 [] [].

(** The two atoms of [ex_el] at their free-atom populations. *)
Definition ref_state : State :=
  mkState 1 2 [1] [diag_matrix [1; 1]] [diag_matrix [1; 1]]
    [diag_matrix [0; 0]] [diag_matrix [1; 1]]
    [[-1; 1]] [[1; 0]] [0; 0] [[1; 0.5]; [0.5; 1]] 0.

Definition ref_calc : Calc :=
  mkCalc ref_state ex_el 0 false (λ _ _, 0) (λ _ _, 0) [0; 0].

Definition ref_bond : MullikenBondAnalysis :=
  mkBond (mkMulliken ref_calc 2 1 [1] 2 [1; 1] [[[1; 0]; [0; 1]]])
    [diag_matrix [1; 1]] [diag_matrix [-1; 1]] [diag_matrix [-1; 1]]
    [1; -1] false.

(** * The same methods in double precision

    The definitions above read the arithmetic of the code over the real
    numbers.  Python floats and numpy [float64]/[complex128] values are
    IEEE 754 binary64 numbers: every operation rounds, so sums taken in
    different orders can differ in the last bits.  This module reads the
    methods that sum the same numbers along different routes over binary64,
    in the order the code and numpy evaluate them.  As above, an object is the
    record of the attributes its methods read. *)
Module F64.
#[local] Open Scope float_scope.

(** [complex128]: Python and numpy add componentwise and multiply by
    [(a+bi)(c+di) = (ac-bd) + (ad+bc)i]. *)
Record complex128 : Type := mkComplex { real : float; imag : float }.

Definition Cadd (x y : complex128) : complex128 :=
  mkComplex (real x + real y) (imag x + imag y).

Definition Cmul (x y : complex128) : complex128 :=
  mkComplex (real x * real y - imag x * imag y)
            (real x * imag y + imag x * real y).

(** A float meeting a complex number is converted to [x + 0j]. *)
Definition of_float (x : float) : complex128 := mkComplex x 0.

(** Python's [sum(l)]: [0 + l[0] + l[1] + ...], from the left. *)
Definition py_sum (l : list float) : float := foldl add 0 l.

(** The eight accumulators of numpy's [pairwise_sum]:
    [for (i = 8; i < n - (n % 8); i += 8) r[j] += a[i + j]]. *)
Fixpoint accumulate (blocks : nat) (r l : list float) : list float :=
  match blocks with
  | O => r
  | S b => accumulate b (zip_with add r (take 8 l)) (drop 8 l)
  end.

(** numpy's [pairwise_sum] on at most 128 numbers: fewer than eight are
    added from the left; otherwise eight accumulators run over the blocks of
    eight, are added as a tree, and the rest is added from the left. *)
Definition unrolled_sum (l : list float) : float :=
  let n := length l in
  if decide (n < 8)%nat then foldl add 0 l
  else
    let full := (n - n mod 8)%nat in
    let r := accumulate (full / 8 - 1) (take 8 l) (drop 8 l) in
    let res := match r with
               | [r0; r1; r2; r3; r4; r5; r6; r7] =>
                   ((r0 + r1) + (r2 + r3)) + ((r4 + r5) + (r6 + r7))
               | _ => 0
               end in
    foldl add res (drop full l).

(** numpy's [pairwise_sum]: above 128 numbers the array is halved, the first
    half rounded down to a multiple of eight.  [fuel] bounds the depth. *)
Fixpoint pairwise_sum (fuel : nat) (l : list float) : float :=
  match fuel with
  | O => unrolled_sum l
  | S fuel' =>
      let n := length l in
      if decide (n ≤ 128)%nat then unrolled_sum l
      else
        let n2 := (n / 2 - (n / 2) mod 8)%nat in
        pairwise_sum fuel' (take n2 l) + pairwise_sum fuel' (drop n2 l)
  end.

(** [a.sum()] and [np.sum(a)] for a one-dimensional float array: the
    reduction starts from the identity [0.0] and adds [pairwise_sum(a)]. *)
Definition np_sum (l : list float) : float := 0 + pairwise_sum (length l) l.

(** [np.sum(M)] for a two-dimensional view that is not contiguous: the
    rows are reduced one after the other into the same accumulator. *)
Definition np_sum2 (M : list (list float)) : float :=
  foldl (λ acc row, acc + pairwise_sum (length row) row) 0 M.

(** [calc.el]: the atoms with their orbital ranges and valences. *)
Record atom_info : Type := mkAtom { o1 : nat; no : nat; valence : float }.

(** [el.orbitals(I, indices=True)]. *)
Definition orbitals_indices (atoms : list atom_info) (I : nat)
  : result (list nat) :=
  a ← idx atoms I; Ok (seq (o1 a) (no a)).

(** [el.get_property_lists(['o1','no'])]. *)
Definition get_property_lists (atoms : list atom_info) : list (nat * nat) :=
  (λ a, (o1 a, no a)) <$> atoms.

(** The attributes of a [MullikenAnalysis] object read below. *)
Record MullikenAnalysis : Type := mkMulliken {
  el_atoms : list atom_info;
  nk : nat;
  wk : list float;
  diag : list float
}.

(** [get_atoms_mulliken] *)
Definition get_atoms_mulliken (m : MullikenAnalysis) : list float :=
  let q := (λ '(o1, no), np_sum (slice (diag m) o1 (o1 + no)))
             <$> get_property_lists (el_atoms m) in
  zip_with sub q (valence <$> el_atoms m).

(** [get_atom_mulliken] *)
Definition get_atom_mulliken (m : MullikenAnalysis) (I : nat) : result float :=
  orbs ← orbitals_indices (el_atoms m) I;
  all ← fancy (diag m) orbs;
  Ok (py_sum all).

(** [pop = np.zeros((3,)); pop[0] = all[0];
     if len(all)>1: pop[1] = all[1:4].sum();
     if len(all)>4: pop[2] = all[4:].sum()] *)
Definition angmom_pop (all : list float) : result (list float) :=
  let pop := replicate 3 0 in
  a0 ← idx all 0;
  let pop := <[0%nat := a0]> pop in
  let pop := if decide (1 < length all)%nat
             then <[1%nat := np_sum (slice all 1 4)]> pop else pop in
  let pop := if decide (4 < length all)%nat
             then <[2%nat := np_sum (drop 4 all)]> pop else pop in
  Ok pop.

(** [get_atom_all_angmom_mulliken] *)
Definition get_atom_all_angmom_mulliken (m : MullikenAnalysis) (I : nat)
  : result (list float) :=
  orbs ← orbitals_indices (el_atoms m) I;
  all ← fancy (diag m) orbs;
  angmom_pop all.

(** The attributes of a [MullikenBondAnalysis] object read below, with
    [st.es.G], [st.dq] and the two pair-energy providers of [calc]. *)
Record MullikenBondAnalysis : Type := mkBond {
  bond_base : MullikenAnalysis;
  rhoSk : list (list (list complex128));
  rhoM : list (list (list complex128));
  SCC : bool;
  es_G : list (list float);
  st_dq : list float;
  rep_energy : nat → nat → float;
  pp_energy : nat → nat → float
}.

(** [get_mayer_bond_order]: [M = 0.0] and
    [M += self.wk[k] * self.rhoSk[k,mu,nu]*self.rhoSk[k,nu,mu]]. *)
Definition get_mayer_bond_order (b : MullikenBondAnalysis) (i j : nat)
  : result float :=
  let m := bond_base b in
  orbi ← orbitals_indices (el_atoms m) i;
  orbj ← orbitals_indices (el_atoms m) j;
  M ← foldlM (λ M k,
         foldlM (λ M mu,
           foldlM (λ M nu,
             w ← idx (wk m) k;
             x ← idx3 (rhoSk b) k mu nu;
             y ← idx3 (rhoSk b) k nu mu;
             Ok (Cadd M (Cmul (Cmul (of_float w) x) y))) orbj M) orbi M)
       (seq 0 (nk m)) (of_float 0);
  _ ← py_assert (abs (imag M) <? 1e-12);
  Ok (real M).

(** [get_bond_energy]: [coul = G[i,j]*dq[i]*dq[j]] and
    [ebs += 2*wk*np.sum( self.rhoM[k,o1i:o1i+noi,o1j:o1j+noj].real )]. *)
Definition get_bond_energy (Hartree : float) (b : MullikenBondAnalysis)
  (i j : nat) : result float :=
  let m := bond_base b in
  let rep := rep_energy b i j in
  let epp := pp_energy b i j in
  coul ← (if SCC b then
            G_i ← idx (es_G b) i;
            G_ij ← idx G_i j;
            dq_i ← idx (st_dq b) i;
            dq_j ← idx (st_dq b) j;
            Ok (G_ij * dq_i * dq_j)
          else Ok 0);
  pi ← idx (get_property_lists (el_atoms m)) i;
  pj ← idx (get_property_lists (el_atoms m)) j;
  let '(o1i, noi) := pi in
  let '(o1j, noj) := pj in
  ebs ← foldlM (λ ebs kw,
           M ← idx (rhoM b) kw.1;
           Ok (ebs + 2 * kw.2 *
                 np_sum2 (fmap (M := list) (fmap (M := list) real)
                            (block M o1i (o1i + noi) o1j (o1j + noj)))))
         (enumerate (wk m)) 0;
  Ok ((rep + epp + coul + ebs) * Hartree).

(** One atom with an s and two p orbitals. *)
Definition sp_m : MullikenAnalysis :=
  mkMulliken [mkAtom 0 3 4] 1 [1] [0.1; 0.2; 0.3].

(** The same populations on two atoms. *)
Definition two_m : MullikenAnalysis :=
  mkMulliken [mkAtom 0 1 1; mkAtom 1 2 3] 1 [1] [0.1; 0.2; 0.3].

(** One atom with nine orbitals of population 0.1. *)
Definition nine_m : MullikenAnalysis :=
  mkMulliken [mkAtom 0 9 1] 1 [1] (replicate 9 0.1).

(** Two atoms with two orbitals each, one k-point of weight one, and a real
    symmetric [rhoSk]. *)
Definition sym_bond : MullikenBondAnalysis :=
  let z := of_float in
  mkBond (mkMulliken [mkAtom 0 2 2; mkAtom 2 2 2] 1 [1] [1; 1; 1; 1])
    [[[z 1; z 0; z 0.1; z 0.1]; [z 0; z 1; z 0.3; z 0.1];
      [z 0.1; z 0.3; z 1; z 0]; [z 0.1; z 0.1; z 0; z 1]]]
    [replicate 4 (replicate 4 (z 0))]
    false [[0; 0]; [0; 0]] [0; 0] (λ _ _, 0) (λ _ _, 0).

(** Two one-orbital atoms with charges 0.1 and 0.3, a symmetric [G], no
    pair energies and a vanishing [rhoM]. *)
Definition scc_bond : MullikenBondAnalysis :=
  let z := of_float in
  mkBond (mkMulliken [mkAtom 0 1 1; mkAtom 1 1 1] 1 [1] [1; 1])
    [[[z 1; z 0]; [z 0; z 1]]] [[[z 0; z 0]; [z 0; z 0]]]
    true [[0.5; 0.1]; [0.1; 0.5]] [0.1; 0.3] (λ _ _, 0) (λ _ _, 0).

End F64.

(** * Properties *)

Arguments Cadd : simpl never.
Arguments Csub : simpl never.
Arguments Cmul : simpl never.
Arguments Cconj : simpl never.
Arguments Cscale : simpl never.
Arguments RtoC : simpl never.

Lemma bind_Ok {A B} (m : result A) (f : A → result B) b :
  (x ← m; f x) = Ok b ↔ ∃ a, m = Ok a ∧ f a = Ok b.
Proof.
  destruct m as [a|e]; simpl; split.
  - eauto.
  - by intros (a' & [= <-] & ?).
  - done.
  - by intros (a' & ? & ?).
Qed.

Lemma idx_Ok {A} (l : list A) i x : idx l i = Ok x ↔ l !! i = Some x.
Proof. unfold idx. destruct (l !! i); naive_solver. Qed.

Lemma idx_lookup {A} (l : list A) i x : l !! i = Some x → idx l i = Ok x.
Proof. by intros ->%idx_Ok. Qed.

Lemma mapM_Ok_fmap {A B} (f : A → result B) (g : A → B) l :
  (∀ x, x ∈ l → f x = Ok (g x)) → mapM f l = Ok (g <$> l).
Proof.
  induction l as [|x l IH]; intros Hf; simpl; [done|].
  rewrite Hf by left. simpl. rewrite IH; [done|].
  intros y Hy. apply Hf. by right.
Qed.

Lemma mapM_Ok_inv {A B} (f : A → result B) l r :
  mapM f l = Ok r → Forall2 (λ x y, f x = Ok y) l r.
Proof.
  revert r. induction l as [|x l IH]; intros r; simpl.
  - intros [= <-]. constructor.
  - intros (y & Hy & (k & Hk & [= <-])%bind_Ok)%bind_Ok.
    constructor; auto.
Qed.

Lemma foldl_Rplus a l : foldl Rplus a l = a + Rsum l.
Proof.
  revert a. induction l as [|x l IH]; intros a; simpl; [lra|].
  rewrite IH. lra.
Qed.

Lemma py_sum_Rsum l : py_sum l = Rsum l.
Proof. unfold py_sum. rewrite foldl_Rplus. lra. Qed.

Lemma Rsum_app l1 l2 : Rsum (l1 ++ l2) = Rsum l1 + Rsum l2.
Proof. induction l1 as [|x l1 IH]; simpl; [lra|]. rewrite IH. lra. Qed.

Lemma Rsum_perm l1 l2 : l1 ≡ₚ l2 → Rsum l1 = Rsum l2.
Proof. induction 1; simpl; lra. Qed.

Lemma fancy_seq {A} (l : list A) a n :
  (a + n ≤ length l)%nat → fancy l (seq a n) = Ok (slice l a (a + n)).
Proof.
  unfold fancy, slice. replace (a + n - a)%nat with n by lia.
  revert a. induction n as [|n IH]; intros a Hlen; simpl.
  - by rewrite take_0.
  - destruct (lookup_lt_is_Some_2 l a) as [x Hx]; [lia|].
    rewrite (idx_lookup _ _ _ Hx). simpl.
    rewrite IH by lia. simpl.
    by rewrite (drop_S _ _ _ Hx).
Qed.

Lemma angmom_pop_sum all pop :
  angmom_pop all = Ok pop →
  ∃ s, all !! 0%nat = Some s ∧
       pop = [s; Rsum (slice all 1 4); Rsum (drop 4 all)] ∧
       s + Rsum (slice all 1 4) + Rsum (drop 4 all) = Rsum all.
Proof.
  unfold angmom_pop, slice.
  destruct all as [|a0 [|a1 [|a2 [|a3 [|a4 rest]]]]]; simpl; try done;
    intros [= <-]; eexists; (split; [done|]);
    repeat case_decide; simpl in *; try lia; (split; [done|]); lra.
Qed.

Lemma angmom_pop_Ok all s :
  all !! 0%nat = Some s → ∃ pop, angmom_pop all = Ok pop.
Proof.
  unfold angmom_pop. intros ->%idx_lookup. simpl. eauto.
Qed.



Lemma half_sum_loop (f : nat → result R) (i : nat) l acc :
  foldlM (λ eb j, if decide (j = i) then Ok eb
                  else e ← f j; Ok (eb + 0.5 * e)) l acc
  = (es ← mapM f (filter (λ j, j ≠ i) l); Ok (acc + 0.5 * Rsum es)).
Proof.
  revert acc. induction l as [|j l IH]; intros acc.
  - simpl. f_equal. lra.
  - cbn [foldlM]. destruct (decide (j = i)) as [->|Hne].
    + rewrite filter_cons_False by naive_solver. simpl. apply IH.
    + rewrite filter_cons_True by done. simpl.
      destruct (f j) as [e|err]; simpl; [|done].
      rewrite IH. destruct (mapM f _) as [es|err]; simpl; [|done].
      f_equal. lra.
Qed.

(** C7.  [get_atom_and_bond_energy(i)] is [get_atom_energy(i)] plus one half
    of the sum of [get_bond_energy(i,j)] over all atoms [j] different from [i];
    it raises exactly when one of these calls raises, with the first
    exception met. *)
Theorem atom_and_bond_energy_split (Hartree Bohr : R) (b : MullikenBondAnalysis) (i : nat) :
  get_atom_and_bond_energy Hartree Bohr b i
  = (ea ← get_atom_energy Hartree Bohr b i;
     es ← mapM (get_bond_energy Hartree b i)
            (filter (λ j, j ≠ i) (seq 0 (N (bond_base b))));
     Ok (ea + 0.5 * Rsum es)).
Proof.
  unfold get_atom_and_bond_energy.
  destruct (get_atom_energy Hartree Bohr b i) as [ea|err]; simpl; [|done].
  rewrite half_sum_loop.
  destruct (mapM _ _) as [es|err]; simpl; [|done].
  f_equal. lra.
Qed.

(** C8.  With [broaden=True] and [occu=True], [get_density_of_states] raises
    the configuration error, whatever the other arguments are. *)
Theorem dos_broaden_occu_raises broaden (d : DensityOfStates) (projected : bool)
  (width : R) (window : option (R * R)) (npts : nat) :
  get_density_of_states broaden d true projected true width window npts
  = Raise AssertionError.
Proof. reflexivity. Qed.

Section Shapes.
Context {A : Type}.
Implicit Types (M : list (list A)) (row : list A).

Lemma shape2_lookup r c M i :
  shape2 r c M → (i < r)%nat → ∃ row, M !! i = Some row ∧ length row = c.
Proof.
  intros [Hlen Hrows] Hi.
  destruct (lookup_lt_is_Some_2 M i) as [row Hrow]; [lia|].
  exists row. split; [done|].
  by apply (Forall_lookup_1 _ _ _ _ Hrows Hrow).
Qed.

Lemma shape2_ncols r c M : shape2 r c M → (0 < r)%nat → ncols M = c.
Proof.
  intros [Hlen Hrows] Hr. destruct M as [|row M]; simpl in *; [lia|].
  by inversion Hrows.
Qed.

Lemma column_cons j row M x :
  row !! j = Some x → column j (row :: M) = x :: column j M.
Proof. unfold column. simpl. by intros ->. Qed.

Lemma column_lookup c j M i :
  Forall (λ row, length row = c) M → (j < c)%nat →
  column j M !! i = get2 M i j.
Proof.
  intros Hrows Hj. revert i. induction Hrows as [|row M Hrow _ IH]; intros i.
  - done.
  - destruct (lookup_lt_is_Some_2 row j) as [x Hx]; [lia|].
    rewrite (column_cons _ _ _ _ Hx).
    destruct i as [|i]; simpl; [done|]. apply IH.
Qed.

Lemma column_length c j M :
  Forall (λ row, length row = c) M → (j < c)%nat → length (column j M) = length M.
Proof.
  intros Hrows Hj. induction Hrows as [|row M Hrow _ IH]; [done|].
  destruct (lookup_lt_is_Some_2 row j) as [x Hx]; [lia|].
  rewrite (column_cons _ _ _ _ Hx). simpl. by rewrite IH.
Qed.

Lemma transpose_lookup M j :
  (j < ncols M)%nat → transpose M !! j = Some (column j M).
Proof.
  intros Hj. unfold transpose. rewrite list_lookup_fmap.
  by rewrite lookup_seq_lt.
Qed.

Lemma transpose_length M : length (transpose M) = ncols M.
Proof. unfold transpose. by rewrite length_fmap, length_seq. Qed.

Lemma transpose_shape r c M :
  shape2 r c M → (0 < r)%nat → shape2 c r (transpose M).
Proof.
  intros HM Hr. pose proof (shape2_ncols _ _ _ HM Hr) as Hc.
  destruct HM as [Hlen Hrows]. split.
  - by rewrite transpose_length.
  - unfold transpose. rewrite Hc. apply Forall_fmap, Forall_forall.
    intros j [_ Hj]%elem_of_seq. simpl.
    rewrite (column_length c) by (done || lia). done.
Qed.

Lemma transpose_get2 r c M i j :
  shape2 r c M → (i < r)%nat → (j < c)%nat →
  get2 (transpose M) j i = get2 M i j.
Proof.
  intros HM Hi Hj. unfold get2 at 1.
  rewrite transpose_lookup by (rewrite (shape2_ncols r c) by (done || lia); done).
  simpl. apply (column_lookup c); [apply HM|done].
Qed.

Lemma column_transpose r c M i row :
  shape2 r c M → M !! i = Some row → column i (transpose M) = row.
Proof.
  intros HM Hrow.
  assert (i < r)%nat as Hi.
  { destruct HM as [<- _]. by eapply lookup_lt_Some. }
  assert (length row = c) as Hc.
  { destruct HM as [_ Hrows]. by apply (Forall_lookup_1 _ _ _ _ Hrows Hrow). }
  pose proof (transpose_shape _ _ _ HM ltac:(lia)) as [HTlen HTrows].
  apply list_eq. intros j.
  destruct (decide (j < c)%nat) as [Hj|Hj].
  - rewrite (column_lookup r) by done.
    rewrite (transpose_get2 r c) by done.
    unfold get2. by rewrite Hrow.
  - rewrite (lookup_ge_None_2 row) by lia.
    apply lookup_ge_None_2.
    destruct (decide (0 < c)%nat).
    + rewrite (column_length r) by (done || lia). lia.
    + assert (transpose M = []) as ->; [|simpl; lia].
      apply length_zero_iff_nil. lia.
Qed.

End Shapes.

Lemma transpose_involutive {A} n (M : list (list A)) :
  shape2 n n M → transpose (transpose M) = M.
Proof.
  intros HM. destruct (decide (n = 0%nat)) as [->|Hn].
  { destruct HM as [HM _]. apply length_zero_iff_nil in HM. by subst. }
  pose proof (transpose_shape _ _ _ HM ltac:(lia)) as HT.
  apply list_eq. intros i. destruct (decide (i < n)%nat) as [Hi|Hi].
  - destruct (shape2_lookup _ _ _ _ HM Hi) as (row & Hrow & _).
    rewrite transpose_lookup
      by (rewrite (shape2_ncols n n) by (done || lia); done).
    by rewrite (column_transpose n n M i row), Hrow.
  - rewrite !lookup_ge_None_2; [done|destruct HM; lia|].
    rewrite transpose_length, (shape2_ncols n n) by (done || lia). lia.
Qed.

Lemma zip_with_seq {A B D} (f : A → B → D) d1 d2 v w n :
  length v = n → length w = n →
  zip_with f v w
  = (λ i, f (default d1 (v !! i)) (default d2 (w !! i))) <$> seq 0 n.
Proof.
  intros Hv Hw. apply list_eq. intros i.
  rewrite lookup_zip_with, list_lookup_fmap.
  destruct (decide (i < n)%nat) as [Hi|Hi].
  - rewrite lookup_seq_lt by done.
    destruct (lookup_lt_is_Some_2 v i) as [x Hx]; [lia|].
    destruct (lookup_lt_is_Some_2 w i) as [y Hy]; [lia|].
    simpl. by rewrite Hx, Hy.
  - rewrite lookup_seq_ge by lia.
    by rewrite (lookup_ge_None_2 v) by lia.
Qed.

Lemma shape3_lookup {A} n r c (T : list (list (list A))) k :
  shape3 n r c T → (k < n)%nat → ∃ M, T !! k = Some M ∧ shape2 r c M.
Proof.
  intros [Hlen HT] Hk.
  destruct (lookup_lt_is_Some_2 T k) as [M HM]; [lia|].
  exists M. split; [done|]. by apply (Forall_lookup_1 _ _ _ _ HT HM).
Qed.

Lemma at3_lookup T k a mu (M : list (list C)) row x :
  T !! k = Some M → M !! a = Some row → row !! mu = Some x → at3 T k a mu = x.
Proof. unfold at3. intros -> HM Hx. simpl. rewrite HM. simpl. by rewrite Hx. Qed.

Lemma aux_row_value (s : State) k a :
  wf_state s → (k < st_nk s)%nat → (a < st_norb s)%nat →
  aux_row s k a = Ok ((λ mu, aux_value s k a mu) <$> seq 0 (st_norb s)).
Proof.
  intros Hs Hk Ha.
  destruct (shape3_lookup _ _ _ _ _ (wf_wf _ Hs) Hk) as (wf_k & Hwfk & Hshape).
  destruct (shape2_lookup _ _ _ _ Hshape Ha) as (wf_ka & Hwfka & Hlen).
  destruct (shape3_lookup _ _ _ _ _ (wf_S _ Hs) Hk) as (S_k & HSk & HSshape).
  unfold aux_row.
  rewrite (idx_lookup _ _ _ Hwfk). simpl.
  rewrite (idx_lookup _ _ _ Hwfka). simpl.
  rewrite (idx_lookup _ _ _ HSk). simpl.
  f_equal. apply list_eq. intros mu.
  rewrite !list_lookup_fmap, lookup_zip_with, list_lookup_fmap.
  unfold vecmat. rewrite (transpose_involutive _ _ HSshape), list_lookup_fmap.
  destruct (decide (mu < st_norb s)%nat) as [Hmu|Hmu].
  - rewrite lookup_seq_lt by done.
    destruct (lookup_lt_is_Some_2 wf_ka mu) as [x Hx]; [lia|].
    destruct (shape2_lookup _ _ _ _ HSshape Hmu) as (S_mu & HSmu & HSlen).
    rewrite Hx, HSmu.
    cbn [fmap option_fmap option_map mbind option_bind]. f_equal.
    unfold aux_value. rewrite Nat.add_0_l.
    rewrite (at3_lookup _ _ _ _ _ _ _ Hwfk Hwfka Hx).
    do 2 f_equal. unfold dot.
    rewrite (zip_with_seq _ C0 C0 _ _ (st_norb s)) by done.
    f_equal. apply list_fmap_ext. intros i nu Hnu.
    apply lookup_seq in Hnu as [-> Hnu]. simpl.
    unfold at3. by rewrite Hwfk, HSk; simpl; rewrite Hwfka, HSmu.
  - rewrite lookup_seq_ge by lia.
    by rewrite (lookup_ge_None_2 wf_ka) by lia.
Qed.

Lemma diag_k_length n (rho_k S_k : list (list C)) :
  shape2 n n rho_k → shape2 n n S_k → length (diag_k rho_k S_k) = n.
Proof.
  intros Hr HS. unfold diag_k, hadamard.
  rewrite length_fmap, length_zip_with, transpose_length.
  destruct (decide (n = 0%nat)) as [->|Hn].
  - destruct Hr as [-> _]. done.
  - rewrite (shape2_ncols n n) by (done || lia). destruct Hr as [-> _]. lia.
Qed.

Lemma diag_loop_length (s : State) ks d0 :
  wf_state s → Forall (λ k, k < st_nk s)%nat ks → length d0 = st_norb s →
  ∃ d, foldlM (diag_step s) ks d0 = Ok d ∧ length d = st_norb s.
Proof.
  intros Hs Hks. revert d0. induction Hks as [|k ks Hk _ IH]; intros d0 Hd0.
  - by exists d0.
  - destruct (shape3_lookup _ _ _ _ _ (wf_rho _ Hs) Hk) as (rho_k & Hrho & Hrs).
    destruct (shape3_lookup _ _ _ _ _ (wf_S _ Hs) Hk) as (S_k & HSk & HSs).
    destruct (lookup_lt_is_Some_2 (st_wk s) k) as [w Hw];
      [by rewrite (wf_wk _ Hs)|].
    assert (diag_step s d0 k
            = Ok (zip_with Rplus d0 (Rmult w <$> diag_k rho_k S_k))) as Hstep.
    { unfold diag_step.
      by rewrite (idx_lookup _ _ _ Hrho), (idx_lookup _ _ _ HSk),
        (idx_lookup _ _ _ Hw). }
    cbn [foldlM]. rewrite Hstep. simpl.
    apply IH.
    rewrite length_zip_with, length_fmap, (diag_k_length (st_norb s)) by done.
    lia.
Qed.

Lemma MullikenAnalysis_init_Ok (c : Calc) :
  wf_state (st c) →
  ∃ d, length d = st_norb (st c) ∧
       MullikenAnalysis_init c
       = Ok (mkMulliken c (el_N (el c)) (st_nk (st c)) (st_wk (st c))
               (st_norb (st c)) d (aux_table (st c))).
Proof.
  intros Hs.
  destruct (diag_loop_length (st c) (seq 0 (st_nk (st c)))
              (replicate (st_norb (st c)) 0) Hs) as (d & Hd & Hlen).
  { apply Forall_forall. intros k [_ Hk]%elem_of_seq. lia. }
  { by rewrite length_replicate. }
  exists d. split; [done|].
  unfold MullikenAnalysis_init. rewrite Hd. simpl.
  rewrite (mapM_Ok_fmap _
    (λ k, (λ a, (λ mu, aux_value (st c) k a mu) <$> seq 0 (st_norb (st c)))
            <$> seq 0 (st_norb (st c)))).
  - done.
  - intros k [_ Hk]%elem_of_seq. apply mapM_Ok_fmap.
    intros a [_ Ha]%elem_of_seq. apply aux_row_value; (done || lia).
Qed.

Lemma aux_table_lookup (s : State) k a mu :
  (k < st_nk s)%nat → (a < st_norb s)%nat → (mu < st_norb s)%nat →
  ∃ T_k row, aux_table s !! k = Some T_k ∧ T_k !! a = Some row ∧
             row !! mu = Some (aux_value s k a mu).
Proof.
  intros Hk Ha Hmu. unfold aux_table. do 2 eexists.
  rewrite list_lookup_fmap, lookup_seq_lt by done. simpl.
  split; [done|].
  rewrite list_lookup_fmap, lookup_seq_lt by done. simpl.
  split; [done|].
  by rewrite list_lookup_fmap, lookup_seq_lt by done.
Qed.

(** C1, as amended.  On a well-shaped state the constructor succeeds, and for
    all indices in range [get_basis_wf_mulliken(mu,k,a,wk=False)] returns
    [Re( conj(wf[k,a,mu]) * Sum_nu wf[k,a,nu] * S[k][mu,nu] )], the first
    factor being conjugated; with [wk=True] it returns that value times
    [wk[k]]. *)
Theorem basis_wf_mulliken_value (c : Calc) :
  wf_state (st c) →
  ∃ m, MullikenAnalysis_init c = Ok m ∧
       ∀ mu k a, (k < st_nk (st c))%nat → (a < st_norb (st c))%nat →
                 (mu < st_norb (st c))%nat →
         get_basis_wf_mulliken m mu k a false = Ok (aux_value (st c) k a mu) ∧
         get_basis_wf_mulliken m mu k a true
         = Ok (wk_at (st c) k * aux_value (st c) k a mu).
Proof.
  intros Hs. destruct (MullikenAnalysis_init_Ok c Hs) as (d & Hd & Hinit).
  eexists. split; [exact Hinit|]. intros mu k a Hk Ha Hmu.
  destruct (aux_table_lookup (st c) k a mu Hk Ha Hmu) as (T_k & row & HT & Hrow & Hx).
  destruct (lookup_lt_is_Some_2 (st_wk (st c)) k) as [w Hw];
    [by rewrite (wf_wk _ Hs)|].
  unfold get_basis_wf_mulliken, k_weight, aux_ka, wk_at. simpl.
  rewrite (idx_lookup _ _ _ HT), (idx_lookup _ _ _ Hw). simpl.
  rewrite (idx_lookup _ _ _ Hrow). simpl.
  rewrite (idx_lookup _ _ _ Hx), Hw. simpl.
  split; f_equal. lra.
Qed.

Lemma fancy_default {A} (d : A) (l : list A) ix :
  Forall (λ i, i < length l)%nat ix →
  fancy l ix = Ok ((λ i, default d (l !! i)) <$> ix).
Proof.
  intros Hix. apply mapM_Ok_fmap. intros i Hi.
  rewrite Forall_forall in Hix.
  destruct (lookup_lt_is_Some_2 l i) as [x Hx]; [by apply Hix|].
  by rewrite (idx_lookup _ _ _ Hx), Hx.
Qed.

Lemma Rsum_fmap_join {A} (f : A → R) (ls : list (list A)) :
  Rsum (f <$> mjoin ls) = Rsum ((λ l, Rsum (f <$> l)) <$> ls).
Proof.
  induction ls as [|l ls IH]; simpl; [done|].
  by rewrite fmap_app, Rsum_app, IH.
Qed.

Lemma fmap_lookup_seq {A} (d : A) (l : list A) :
  (λ i, default d (l !! i)) <$> seq 0 (length l) = l.
Proof.
  apply list_eq. intros i. rewrite list_lookup_fmap.
  destruct (decide (i < length l)%nat) as [Hi|Hi].
  - rewrite lookup_seq_lt by done. simpl.
    destruct (lookup_lt_is_Some_2 l i) as [x Hx]; [done|]. by rewrite Hx.
  - rewrite lookup_seq_ge by lia. by rewrite lookup_ge_None_2 by lia.
Qed.

Lemma fmap_seq_lookup {A B} (g : option A → B) (l : list A) :
  (λ i, g (l !! i)) <$> seq 0 (length l) = (λ x, g (Some x)) <$> l.
Proof.
  apply list_eq. intros i. rewrite !list_lookup_fmap.
  destruct (decide (i < length l)%nat) as [Hi|Hi].
  - rewrite lookup_seq_lt by done. simpl.
    destruct (lookup_lt_is_Some_2 l i) as [x Hx]; [done|]. by rewrite Hx.
  - rewrite lookup_seq_ge by lia. by rewrite lookup_ge_None_2 by lia.
Qed.


Lemma C_eq (a b : C) : Re a = Re b → Im a = Im b → a = b.
Proof. destruct a, b. simpl. by intros -> ->. Qed.

Ltac C_ring := apply C_eq; unfold Cadd, Csub, Cmul, Cconj, Cscale, RtoC, C0; simpl; ring.

Lemma Cadd_0_l a : Cadd C0 a = a.
Proof. C_ring. Qed.

Lemma Cadd_0_r a : Cadd a C0 = a.
Proof. C_ring. Qed.

Lemma Cadd_assoc a b c : Cadd a (Cadd b c) = Cadd (Cadd a b) c.
Proof. C_ring. Qed.

Lemma Cadd_comm a b : Cadd a b = Cadd b a.
Proof. C_ring. Qed.

Lemma Csum_cons x l : Csum (x :: l) = Cadd x (Csum l).
Proof. done. Qed.

Lemma Csum_pointwise {A} (F G : A → C) l :
  Csum ((λ x, Cadd (F x) (G x)) <$> l) = Cadd (Csum (F <$> l)) (Csum (G <$> l)).
Proof.
  induction l as [|x l IH]; [C_ring|].
  rewrite !fmap_cons, !Csum_cons, IH. C_ring.
Qed.

Lemma Csum_zero {A} (l : list A) : Csum ((λ _, C0) <$> l) = C0.
Proof.
  induction l as [|x l IH]; [done|].
  rewrite fmap_cons, Csum_cons, IH. C_ring.
Qed.

Lemma Csum_swap {A B} (F : A → B → C) l1 l2 :
  Csum ((λ a, Csum ((λ b, F a b) <$> l2)) <$> l1)
  = Csum ((λ b, Csum ((λ a, F a b) <$> l1)) <$> l2).
Proof.
  induction l1 as [|a l1 IH].
  - by rewrite Csum_zero.
  - by rewrite fmap_cons, Csum_cons, IH, <- Csum_pointwise.
Qed.

Lemma Csum_ext {A} (F G : A → C) l :
  (∀ x, x ∈ l → F x = G x) → Csum (F <$> l) = Csum (G <$> l).
Proof.
  intros H. f_equal. apply list_fmap_ext. intros i x Hx. apply H.
  by eapply list_elem_of_lookup_2.
Qed.

(** A loop that adds one term per element computes the sum of the terms. *)
Lemma foldlM_Cadd {A} (body : C → A → result C) (G : A → C) l :
  (∀ acc x r, x ∈ l → body acc x = Ok r → r = Cadd acc (G x)) →
  ∀ acc r, foldlM body l acc = Ok r → r = Cadd acc (Csum (G <$> l)).
Proof.
  induction l as [|x l IH]; intros Hbody acc r.
  - intros [= <-]. by rewrite Cadd_0_r.
  - cbn [foldlM]. intros (s' & Hs' & Hr)%bind_Ok.
    apply Hbody in Hs' as ->; [|by left].
    apply IH in Hr as ->; [by rewrite fmap_cons, Csum_cons, Cadd_assoc|].
    intros ??? Hin. apply Hbody. by right.
Qed.

Lemma idx3_at3 T k mu nu x : idx3 T k mu nu = Ok x → at3 T k mu nu = x.
Proof.
  unfold idx3.
  intros (T_k & HT%idx_Ok & (row & Hrow%idx_Ok & Hx%idx_Ok)%bind_Ok)%bind_Ok.
  by eapply at3_lookup.
Qed.

Lemma mayer_term_sym b k mu nu : mayer_term b k mu nu = mayer_term b k nu mu.
Proof. unfold mayer_term. C_ring. Qed.

Lemma mayer_loop (b : MullikenBondAnalysis) (orbi orbj : list nat) ks M :
  foldlM (λ M k,
    foldlM (λ M mu,
      foldlM (λ M nu,
        w ← idx (wk (bond_base b)) k;
        x ← idx3 (rhoSk b) k mu nu;
        y ← idx3 (rhoSk b) k nu mu;
        Ok (Cadd M (Cmul (Cscale w x) y))) orbj M) orbi M) ks C0 = Ok M →
  M = Csum ((λ k, Csum ((λ mu, Csum ((λ nu, mayer_term b k mu nu) <$> orbj))
                          <$> orbi)) <$> ks).
Proof.
  intros HM. rewrite <- (Cadd_0_l (Csum _)).
  revert HM. apply foldlM_Cadd. intros acc k r _.
  apply foldlM_Cadd. clear acc r. intros acc mu r _.
  apply foldlM_Cadd. clear acc r. intros acc nu r _.
  intros (w & Hw%idx_Ok & (x & Hx%idx3_at3 & (y & Hy%idx3_at3 & [= <-])%bind_Ok)
            %bind_Ok)%bind_Ok.
  unfold mayer_term. by rewrite Hw, Hx, Hy.
Qed.


Lemma get2_zip_with {A B D} (f : A → B → D) (X : list (list A)) (Y : list (list B)) mu nu :
  get2 (zip_with (zip_with f) X Y) mu nu
  = (a ← get2 X mu nu; b ← get2 Y mu nu; Some (f a b)).
Proof.
  unfold get2. rewrite lookup_zip_with.
  destruct (X !! mu) as [rx|]; simpl; [|done].
  destruct (Y !! mu) as [ry|]; simpl.
  - rewrite lookup_zip_with. done.
  - by destruct (rx !! nu).
Qed.

Lemma shape2_zip_with {A B D} (f : A → B → D) n (X : list (list A)) (Y : list (list B)) :
  shape2 n n X → shape2 n n Y → shape2 n n (zip_with (zip_with f) X Y).
Proof.
  intros [HX HXr] [HY HYr]. split.
  - rewrite length_zip_with. lia.
  - apply Forall_forall. intros row Hrow.
    apply list_elem_of_lookup in Hrow as [i Hi].
    rewrite lookup_zip_with in Hi.
    destruct (X !! i) as [rx|] eqn:Hrx; simpl in Hi; [|done].
    destruct (Y !! i) as [ry|] eqn:Hry; simpl in Hi; [|done].
    injection Hi as <-. rewrite length_zip_with.
    rewrite (Forall_lookup_1 _ _ _ _ HXr Hrx), (Forall_lookup_1 _ _ _ _ HYr Hry).
    lia.
Qed.

Lemma shape2_get2 {A} n (M : list (list A)) mu nu :
  shape2 n n M → (mu < n)%nat → (nu < n)%nat → is_Some (get2 M mu nu).
Proof.
  intros HM Hmu Hnu. unfold get2.
  destruct (shape2_lookup _ _ _ _ HM Hmu) as (row & -> & Hlen). simpl.
  apply lookup_lt_is_Some_2. lia.
Qed.

Lemma shape2_get2_None {A} n (M : list (list A)) mu nu :
  shape2 n n M → ¬ (mu < n ∧ nu < n)%nat → get2 M mu nu = None.
Proof.
  intros [Hlen Hrows] Hout. unfold get2.
  destruct (M !! mu) as [row|] eqn:Hrow; simpl; [|done].
  apply lookup_ge_None_2.
  rewrite (Forall_lookup_1 _ _ _ _ Hrows Hrow).
  apply lookup_lt_Some in Hrow. lia.
Qed.

Lemma shape2_transpose_sq {A} n (M : list (list A)) :
  shape2 n n M → shape2 n n (transpose M).
Proof.
  intros HM. destruct (decide (n = 0%nat)) as [->|Hn].
  - destruct HM as [HM _]. apply length_zero_iff_nil in HM. by subst.
  - apply transpose_shape; [done|lia].
Qed.

Lemma eps_matrix_shape n epsilon :
  length epsilon = n → shape2 n n (eps_matrix n epsilon).
Proof.
  intros Hlen. unfold eps_matrix.
  assert (shape2 n n ((λ x, replicate n x) <$> epsilon)) as Haux.
  { split; [by rewrite length_fmap|].
    apply Forall_fmap, Forall_forall. intros x _. simpl. apply length_replicate. }
  apply shape2_zip_with; [done|]. by apply shape2_transpose_sq.
Qed.

Lemma eps_matrix_sym n epsilon mu nu :
  length epsilon = n →
  get2 (eps_matrix n epsilon) mu nu = get2 (eps_matrix n epsilon) nu mu.
Proof.
  intros Hlen.
  assert (shape2 n n ((λ x, replicate n x) <$> epsilon)) as Haux.
  { split; [by rewrite length_fmap|].
    apply Forall_fmap, Forall_forall. intros x _. simpl. apply length_replicate. }
  destruct (decide (mu < n ∧ nu < n)%nat) as [[Hmu Hnu]|Hout].
  - unfold eps_matrix. rewrite !get2_zip_with.
    rewrite !(transpose_get2 n n) by done.
    destruct (shape2_get2 _ _ _ _ Haux Hmu Hnu) as [x ->].
    destruct (shape2_get2 _ _ _ _ Haux Hnu Hmu) as [y ->].
    simpl. f_equal. lra.
  - rewrite !(shape2_get2_None n); auto using eps_matrix_shape. lia.
Qed.

Lemma HS_k_shape n H0_k S_k eps :
  shape2 n n H0_k → shape2 n n S_k → shape2 n n eps → shape2 n n (HS_k H0_k S_k eps).
Proof. intros. unfold HS_k, msub, mscale. by repeat apply shape2_zip_with. Qed.

Lemma rhoM_re_symmetric n rho_k H0_k S_k epsilon mu nu :
  shape2 n n rho_k → shape2 n n H0_k → shape2 n n S_k → length epsilon = n →
  hermitian rho_k → hermitian H0_k → hermitian S_k →
  let M := hadamard rho_k (transpose (HS_k H0_k S_k (eps_matrix n epsilon))) in
  re_at M mu nu = re_at M nu mu.
Proof.
  intros Hrho HH0 HS Heps Hhr HhH HhS M.
  pose proof (eps_matrix_shape n epsilon Heps) as Hes.
  pose proof (HS_k_shape n _ _ _ HH0 HS Hes) as HHS.
  assert (shape2 n n M) as HM.
  { apply shape2_zip_with; [done|]. by apply shape2_transpose_sq. }
  unfold re_at.
  destruct (decide (mu < n ∧ nu < n)%nat) as [[Hmu Hnu]|Hout];
    [|rewrite !(shape2_get2_None n) by (done || lia); done].
  unfold M, hadamard. rewrite !get2_zip_with.
  rewrite !(transpose_get2 n n) by done.
  unfold HS_k, msub, mscale. rewrite !get2_zip_with.
  rewrite (eps_matrix_sym n epsilon mu nu) by done.
  destruct (shape2_get2 _ _ _ _ Hrho Hmu Hnu) as [r Hr].
  destruct (shape2_get2 _ _ _ _ HH0 Hnu Hmu) as [h Hh].
  destruct (shape2_get2 _ _ _ _ HS Hnu Hmu) as [s Hs].
  destruct (shape2_get2 _ _ _ _ Hes Hnu Hmu) as [t Ht].
  rewrite (Hhr _ _ _ Hr), (HhH _ _ _ Hh), (HhS _ _ _ Hs), Hr, Hh, Hs, Ht.
  simpl. unfold Cmul, Csub, Cscale, Cconj. simpl. ring.
Qed.

Lemma Rsum_cons x l : Rsum (x :: l) = x + Rsum l.
Proof. done. Qed.

Lemma Rsum_zero {A} (l : list A) : Rsum ((λ _, 0) <$> l) = 0.
Proof. induction l as [|x l IH]; [done|]. rewrite fmap_cons, Rsum_cons, IH. lra. Qed.

Lemma Rsum_pointwise {A} (F G : A → R) l :
  Rsum ((λ x, F x + G x) <$> l) = Rsum (F <$> l) + Rsum (G <$> l).
Proof.
  induction l as [|x l IH]; [simpl; lra|].
  rewrite !fmap_cons, !Rsum_cons, IH. lra.
Qed.

Lemma Rsum_swap {A B} (F : A → B → R) l1 l2 :
  Rsum ((λ a, Rsum ((λ b, F a b) <$> l2)) <$> l1)
  = Rsum ((λ b, Rsum ((λ a, F a b) <$> l1)) <$> l2).
Proof.
  induction l1 as [|a l1 IH].
  - by rewrite Rsum_zero.
  - by rewrite fmap_cons, Rsum_cons, IH, <- Rsum_pointwise.
Qed.

Lemma Rsum_ext {A} (F G : A → R) l :
  (∀ x, x ∈ l → F x = G x) → Rsum (F <$> l) = Rsum (G <$> l).
Proof.
  intros H. f_equal. apply list_fmap_ext. intros i x Hx. apply H.
  by eapply list_elem_of_lookup_2.
Qed.

Lemma Rsum_slice {A} (f : A → R) (l : list A) a b :
  Rsum (f <$> slice l a b)
  = Rsum ((λ i, from_option f 0 (l !! i)) <$> seq a (b - a)).
Proof.
  unfold slice. generalize (b - a)%nat as n. intros n. revert a.
  induction n as [|n IH]; intros a.
  - by rewrite take_0.
  - cbn [seq]. rewrite fmap_cons, Rsum_cons, <- IH.
    destruct (l !! a) as [x|] eqn:Hx.
    + by rewrite (drop_S _ _ _ Hx).
    + apply lookup_ge_None_1 in Hx.
      rewrite !drop_ge by lia. simpl. rewrite take_nil. simpl. lra.
Qed.

Lemma block_sum (M : list (list C)) a a' b b' :
  Rsum (Rsum <$> (fmap (M := list) (fmap (M := list) Re) (block M a a' b b')))
  = Rsum ((λ mu, Rsum ((λ nu, re_at M mu nu) <$> seq b (b' - b)))
            <$> seq a (a' - a)).
Proof.
  unfold block. rewrite <- !list_fmap_compose.
  rewrite (Rsum_slice (Rsum ∘ fmap Re ∘ (λ row, slice row b b'))).
  apply Rsum_ext. intros mu _. unfold re_at, get2.
  destruct (M !! mu) as [row|]; simpl.
  - apply Rsum_slice.
  - by rewrite Rsum_zero.
Qed.

Lemma block_sum_sym (M : list (list C)) a a' b b' :
  (∀ mu nu, re_at M mu nu = re_at M nu mu) →
  Rsum (Rsum <$> (fmap (M := list) (fmap (M := list) Re) (block M a a' b b')))
  = Rsum (Rsum <$> (fmap (M := list) (fmap (M := list) Re) (block M b b' a a'))).
Proof.
  intros Hsym. rewrite !block_sum, Rsum_swap.
  apply Rsum_ext. intros nu _. apply Rsum_ext. intros mu _. apply Hsym.
Qed.

Lemma foldlM_ext {A S} (f g : S → A → result S) l s :
  (∀ s x, x ∈ l → f s x = g s x) → foldlM f l s = foldlM g l s.
Proof.
  revert s. induction l as [|x l IH]; intros s Hfg; [done|].
  cbn [foldlM]. rewrite Hfg by left.
  destruct (g s x) as [s'|err]; simpl; [|done].
  apply IH. intros ???. apply Hfg. by right.
Qed.

Lemma idx_Raise {A} (l : list A) i err : idx l i = Raise err → err = IndexError.
Proof. unfold idx. destruct (l !! i); congruence. Qed.

Lemma idx_get2 {A} (M : list (list A)) i j :
  (row ← idx M i; idx row j)
  = match get2 M i j with Some x => Ok x | None => Raise IndexError end.
Proof.
  unfold get2, idx. destruct (M !! i) as [row|]; simpl; [|done]. done.
Qed.

(** What [MullikenBondAnalysis.__init__] leaves in the object. *)
Lemma MullikenBondAnalysis_init_inv (c : Calc) (b : MullikenBondAnalysis) :
  MullikenBondAnalysis_init c = Ok b →
  calc (bond_base b) = c ∧ wk (bond_base b) = st_wk (st c) ∧
  SCC b = scc c ∧
  ∀ k M, rhoM b !! k = Some M →
    ∃ rho_k H0_k S_k epsilon,
      st_rho (st c) !! k = Some rho_k ∧ st_H0 (st c) !! k = Some H0_k ∧
      st_S (st c) !! k = Some S_k ∧ length epsilon = st_norb (st c) ∧
      M = hadamard rho_k
            (transpose (HS_k H0_k S_k (eps_matrix (st_norb (st c)) epsilon))).
Proof.
  unfold MullikenBondAnalysis_init.
  intros (m & Hm & (epsilon & Heps & (ks & Hks & [= <-])%bind_Ok)%bind_Ok)%bind_Ok.
  unfold MullikenAnalysis_init in Hm.
  apply bind_Ok in Hm as (d & _ & (ax & _ & [= <-])%bind_Ok).
  simpl in *. repeat split.
  intros k M HM.
  apply list_lookup_fmap_Some in HM as (t & -> & Ht).
  apply mapM_Ok_inv in Hks. apply mapM_Ok_inv, Forall2_length in Heps.
  rewrite length_seq in Heps.
  destruct (Forall2_lookup_r _ _ _ _ _ Hks Ht) as (k' & Hk' & Htk).
  apply lookup_seq in Hk' as [-> _]. simpl in Htk.
  apply bind_Ok in Htk as (rho_k & Hrho%idx_Ok & (S_k & HSk%idx_Ok &
    (H0_k & HH0%idx_Ok & [= <-])%bind_Ok)%bind_Ok).
  by exists rho_k, H0_k, S_k, epsilon.
Qed.


Lemma assign_row_length npts y row : assign_row npts y = Ok row → length row = npts.
Proof.
  unfold assign_row. case_decide; [by intros [= <-]|].
  destruct y as [|v [|??]]; try done. intros [= <-]. apply length_replicate.
Qed.

Lemma sum_axis0_length npts M :
  Forall (λ row, length row = npts) M → length (sum_axis0 npts M) = npts.
Proof.
  unfold sum_axis0. intros HM.
  assert (length (replicate npts 0) = npts) as Hacc by apply length_replicate.
  revert Hacc. generalize (replicate npts 0) as acc.
  induction HM as [|row M Hrow _ IH]; intros acc Hacc; [done|].
  simpl. apply IH. rewrite length_zip_with. lia.
Qed.

Lemma Forall_zip_with_Forall2 {A B D} (P : D → Prop) (f : A → B → D) l k :
  length l = length k → Forall P (zip_with f l k) →
  Forall2 (λ x y, P (f x y)) l k.
Proof.
  intros Hlen%Forall2_same_length. induction Hlen as [|x y l k _ _ IH]; simpl.
  - constructor.
  - intros [??]%Forall_cons. constructor; auto.
Qed.

Section Ldos.
Variable broaden : list R → list R → R → nat → R → R → list R * list R.

Lemma ldos_atom_shape d width npts mn mx sel i r :
  ldos_atom broaden d true width npts mn mx sel i = Ok r →
  length r.1.2 = npts ∧ Forall (λ row, length row = npts) r.2.
Proof.
  unfold ldos_atom.
  intros (q & _ & (row & Hrow%assign_row_length & (qa & _ & (prows & Hprows &
            [= <-])%bind_Ok)%bind_Ok)%bind_Ok)%bind_Ok.
  simpl. split; [done|].
  apply mapM_Ok_inv in Hprows. apply Forall_fmap, Forall_forall.
  intros pr Hpr. apply list_elem_of_lookup in Hpr as [l Hl].
  destruct (Forall2_lookup_r _ _ _ _ _ Hprows Hl) as (l' & _ & Hpl).
  apply bind_Ok in Hpl as (ql & _ & (prow & Hlen%assign_row_length & [= <-])%bind_Ok).
  done.
Qed.

(** C9.  Whenever [get_local_density_of_states(projected=True, ...)] returns,
    the projected array summed over its angular-momentum axis is within
    [1e-6] of the unprojected array at every atom and grid point. *)
Theorem ldos_projection_consistent (d : DensityOfStates) (width : R)
  (window : option (R * R)) (npts : nat) (egrid : list R)
  (ldos : list (list R)) (pldos : list (list (list R))) :
  get_local_density_of_states broaden d true width window npts
    = Ok (egrid, ldos, Some pldos) →
  Forall2 (Forall2 (λ x y, Rabs (x - y) < 1e-6)) ldos (sum_axis0 npts <$> pldos).
Proof.
  unfold get_local_density_of_states. destruct (dos_window d window) as [mn mx].
  intros (sel & _ & (rows & Hrows & (u & Hassert & Hret)%bind_Ok)%bind_Ok)%bind_Ok.
  destruct (last _) as [g|]; [|done]. injection Hret as _ <- <-.
  unfold py_assert in Hassert.
  destruct (ldos_consistent _ _ _) eqn:Hcons; [|done]. clear Hassert.
  apply bool_decide_eq_true_1 in Hcons.
  rewrite <- list_fmap_compose, zip_with_fmap_l, zip_with_fmap_r, zip_with_diag in Hcons.
  rewrite <- list_fmap_compose. apply Forall2_fmap, Forall_Forall2_diag.
  rewrite Forall_fmap in Hcons. apply mapM_Ok_inv in Hrows.
  rewrite Forall_forall in Hcons. apply Forall_forall. intros r Hr.
  specialize (Hcons r Hr). simpl in *.
  apply list_elem_of_lookup in Hr as [i Hi].
  destruct (Forall2_lookup_r _ _ _ _ _ Hrows Hi) as (i' & _ & Hatom).
  apply ldos_atom_shape in Hatom as [Hlen Hp].
  apply (Forall_zip_with_Forall2 (λ x, Rabs x < 1e-6) Rminus); [|done].
  by rewrite Hlen, sum_axis0_length.
Qed.

End Ldos.

(** ** The example systems *)

Lemma ex_m_init : MullikenAnalysis_init ex_calc = Ok ex_m.
Proof. vm_compute. repeat (f_equal; try lra). Qed.

Lemma ex_bond_init : MullikenBondAnalysis_init ex_calc = Ok ex_bond.
Proof. vm_compute. repeat (f_equal; try lra). Qed.

Lemma spd_m_init : MullikenAnalysis_init spd_calc = Ok spd_m.
Proof. vm_compute. repeat (f_equal; try lra). Qed.

Lemma ex_state_wf : wf_state ex_state.
Proof. split; repeat (split || constructor). Qed.

Lemma ex_dos_init : DensityOfStates_init 1 ex_calc = Ok ex_dos.
Proof.
  unfold DensityOfStates_init. rewrite ex_m_init. simpl.
  rewrite Rmin_left, Rmax_right by lra.
  unfold ex_dos. repeat (f_equal; try lra).
Qed.

Lemma py_assert_zero (x eps : R) (A : Type) (k : unit → result A) :
  x = 0 → 0 < eps →
  (u ← py_assert (bool_decide (Rabs x < eps)); k u) = k tt.
Proof.
  intros -> Heps. rewrite bool_decide_eq_true_2; [done|].
  rewrite Rabs_R0. done.
Qed.

Lemma basis_wf_mulliken_value_witness :
  wf_state (st ex_calc) ∧
  ∃ m, MullikenAnalysis_init ex_calc = Ok m ∧
       ∀ mu k a, (k < st_nk (st ex_calc))%nat → (a < st_norb (st ex_calc))%nat →
                 (mu < st_norb (st ex_calc))%nat →
         get_basis_wf_mulliken m mu k a false = Ok (aux_value (st ex_calc) k a mu) ∧
         get_basis_wf_mulliken m mu k a true
         = Ok (wk_at (st ex_calc) k * aux_value (st ex_calc) k a mu).
Proof.
  split; [exact ex_state_wf|].
  apply (basis_wf_mulliken_value ex_calc). exact ex_state_wf.
Defined.

(** C1, as stated, fails: for eigenstate [a=1] and orbital [mu=0] of the
    example the code returns [1.5] where the unconjugated formula of the
    specification gives [-1.5]. *)
Lemma spec_aux_counterexample :
  wf_state (st ex_calc) ∧ MullikenAnalysis_init ex_calc = Ok ex_m ∧
  get_basis_wf_mulliken ex_m 0 0 1 false = Ok 1.5 ∧
  spec_aux (st ex_calc) 0 1 0 = -1.5.
Proof.
  split; [exact ex_state_wf|]. split; [exact ex_m_init|]. split.
  - vm_compute. f_equal. lra.
  - vm_compute. lra.
Qed.



Lemma ex_mayer_01 : get_mayer_bond_order ex_bond 0 1 = Ok 2.25.
Proof.
  unfold get_mayer_bond_order. simpl.
  rewrite py_assert_zero; [f_equal| |lra]; vm_compute; lra.
Qed.

Lemma ex_mayer_10 : get_mayer_bond_order ex_bond 1 0 = Ok 2.25.
Proof.
  unfold get_mayer_bond_order. simpl.
  rewrite py_assert_zero; [f_equal| |lra]; vm_compute; lra.
Qed.



Lemma Rabs_small x : x = 0 → Rabs x < 1e-6.
Proof. intros ->. rewrite Rabs_R0. lra. Qed.

Lemma ex_ldos_value :
  get_local_density_of_states box_broaden ex_dos true 1 None 2 = Ok ex_ldos.
Proof.
  unfold get_local_density_of_states, dos_window, states_in_window. simpl.
  rewrite !filter_cons_True by (simpl; lra). rewrite filter_nil.
  unfold ldos_atom. simpl.
  unfold ldos_consistent. rewrite bool_decide_eq_true_2.
  - simpl. unfold ex_ldos. repeat (f_equal; try lra).
  - simpl. repeat constructor; apply Rabs_small; lra.
Qed.

Lemma ldos_projection_consistent_witness :
  get_local_density_of_states box_broaden ex_dos true 1 None 2 = Ok ex_ldos ∧
  Forall2 (Forall2 (λ x y, Rabs (x - y) < 1e-6)) [[2; 2]; [2; 2]]
    (sum_axis0 2 <$> [[[2; 2]; [0; 0]; [0; 0]]; [[2; 2]; [0; 0]; [0; 0]]]).
Proof.
  split; [exact ex_ldos_value|].
  exact (ldos_projection_consistent box_broaden ex_dos 1 None 2 _ _ _ ex_ldos_value).
Defined.

Lemma hermitian_2x2 (a d : R) (z : C) :
  hermitian [[RtoC a; z]; [Cconj z; RtoC d]].
Proof.
  intros [|[|mu]] [|[|nu]] x; unfold get2; simpl; try done;
    intros [= <-]; f_equal; apply C_eq; unfold Cconj, RtoC; simpl; lra.
Qed.

Lemma ex_G_symmetric : symmetric (es_G ex_state).
Proof. intros [|[|i]] [|[|j]]; unfold get2; simpl; done. Qed.


Lemma ex_bond_energy_01 : get_bond_energy 27.2114 ex_bond 0 1 = Ok (2.21875 * 27.2114).
Proof. vm_compute. f_equal. lra. Qed.

(** C2.  An unknown mode does not always raise: with an energy window that
    holds no eigenstate, [get_covalent_energy(mode='bogus', window=(100,200))]
    returns two empty arrays. *)
Theorem covalent_energy_unknown_mode_silent :
  get_covalent_energy 27.2114 box_broaden ex_bond "bogus" 0 0 None
    (Some (100, 200)) 501 = Ok ([], []).
Proof.
  unfold get_covalent_energy. simpl.
  repeat (rewrite decide_False by lra; simpl).
  done.
Qed.

(** With the default window the same call meets an eigenstate and raises. *)
Theorem covalent_energy_unknown_mode_raises_in_window :
  get_covalent_energy 27.2114 box_broaden ex_bond "bogus" 0 0 None None 501
  = Raise NotImplementedError.
Proof.
  unfold get_covalent_energy. simpl.
  rewrite Rmin_left, Rmax_right by lra.
  rewrite decide_True by lra. done.
Qed.

(** ** The sum identities on doubles *)






(** ** Further properties of the module *)

(** *** Angular momenta *)

Lemma get_angular_momenta_sublist l : get_angular_momenta l `sublist_of` [0; 1; 2]%nat.
Proof.
  unfold get_angular_momenta.
  destruct (has_letter "s"%char l), (has_letter "p"%char l), (has_letter "d"%char l); simpl;
    repeat first [apply sublist_nil | apply sublist_skip | apply sublist_cons].
Qed.

(** X1.  [get_angular_momenta(l)] lists, in increasing order and without
    repetition, exactly the angular momenta whose letter occurs in [l]: the
    result is a sublist of [[0,1,2]] and holds 0, 1, 2 exactly when ['s'],
    ['p'], ['d'] occurs in [l]. *)
Theorem get_angular_momenta_spec (l : string) :
  get_angular_momenta l `sublist_of` [0; 1; 2]%nat ∧
  (0%nat ∈ get_angular_momenta l ↔ has_letter "s"%char l = true) ∧
  (1%nat ∈ get_angular_momenta l ↔ has_letter "p"%char l = true) ∧
  (2%nat ∈ get_angular_momenta l ↔ has_letter "d"%char l = true).
Proof.
  split; [apply get_angular_momenta_sublist|].
  unfold get_angular_momenta.
  destruct (has_letter "s"%char l), (has_letter "p"%char l),
    (has_letter "d"%char l); simpl;
    repeat split; intros H;
    first [ done
          | by repeat constructor
          | exfalso;
            repeat (apply elem_of_cons in H as [H|H]; [done|]);
            by apply elem_of_nil in H ].
Qed.

(** *** The populations [diag] *)

(** The diagonal entry [(rho_k . S_k)[mu,mu]], written with [at3]. *)
Lemma dot_row_column (s : State) k mu rho_k S_k row :
  wf_state s → st_rho s !! k = Some rho_k → st_S s !! k = Some S_k →
  rho_k !! mu = Some row →
  dot row (column mu S_k)
  = Csum ((λ nu, Cmul (at3 (st_rho s) k mu nu) (at3 (st_S s) k nu mu))
            <$> seq 0 (st_norb s)).
Proof.
  intros Hs Hrho HS Hrow.
  pose proof (wf_rho _ Hs) as [_ Hrs]. pose proof (wf_S _ Hs) as [_ Hss].
  pose proof (Forall_lookup_1 _ _ _ _ Hrs Hrho) as [Hrlen Hrrows].
  pose proof (Forall_lookup_1 _ _ _ _ Hss HS) as [HSlen HSrows].
  pose proof (Forall_lookup_1 _ _ _ _ Hrrows Hrow) as Hlen. simpl in Hlen.
  assert (mu < st_norb s)%nat as Hmu
    by (rewrite <- Hrlen; by eapply lookup_lt_Some).
  unfold dot.
  rewrite (zip_with_seq _ C0 C0 _ _ (st_norb s));
    [|done|by rewrite (column_length (st_norb s))].
  f_equal. apply list_fmap_ext. intros i nu Hnu.
  apply lookup_seq in Hnu as [-> Hnu]. simpl.
  rewrite (column_lookup (st_norb s)) by done.
  unfold at3, get2. rewrite Hrho, HS. simpl. by rewrite Hrow.
Qed.

Lemma diag_k_lookup (s : State) k mu rho_k S_k :
  wf_state s → st_rho s !! k = Some rho_k → st_S s !! k = Some S_k →
  (mu < st_norb s)%nat →
  diag_k rho_k S_k !! mu
  = Some (Re (Csum ((λ nu, Cmul (at3 (st_rho s) k mu nu) (at3 (st_S s) k nu mu))
                      <$> seq 0 (st_norb s)))).
Proof.
  intros Hs Hrho HS Hmu.
  pose proof (wf_rho _ Hs) as [_ Hrs]. pose proof (wf_S _ Hs) as [_ Hss].
  pose proof (Forall_lookup_1 _ _ _ _ Hrs Hrho) as Hrshape.
  pose proof (Forall_lookup_1 _ _ _ _ Hss HS) as HSshape.
  destruct (shape2_lookup _ _ _ _ Hrshape Hmu) as (row & Hrow & Hlen).
  unfold diag_k, hadamard.
  rewrite list_lookup_fmap, lookup_zip_with, Hrow.
  rewrite transpose_lookup
    by (rewrite (shape2_ncols (st_norb s) (st_norb s)) by (done || lia); done).
  simpl. do 2 f_equal.
  by apply (dot_row_column s k mu rho_k S_k row).
Qed.

Lemma diag_loop_value (s : State) ks d0 :
  wf_state s → Forall (λ k, k < st_nk s)%nat ks → length d0 = st_norb s →
  ∃ d, foldlM (diag_step s) ks d0 = Ok d ∧ length d = st_norb s ∧
       ∀ mu x0, d0 !! mu = Some x0 →
         d !! mu
         = Some (x0 + Rsum ((λ k, wk_at s k *
                     Re (Csum ((λ nu, Cmul (at3 (st_rho s) k mu nu)
                                          (at3 (st_S s) k nu mu))
                                 <$> seq 0 (st_norb s)))) <$> ks)).
Proof.
  intros Hs Hks. revert d0. induction Hks as [|k ks Hk _ IH]; intros d0 Hd0.
  - exists d0. repeat split; [done|]. intros mu x0 ->. simpl. f_equal. lra.
  - destruct (shape3_lookup _ _ _ _ _ (wf_rho _ Hs) Hk) as (rho_k & Hrho & Hrs).
    destruct (shape3_lookup _ _ _ _ _ (wf_S _ Hs) Hk) as (S_k & HSk & HSs).
    destruct (lookup_lt_is_Some_2 (st_wk s) k) as [w Hw];
      [by rewrite (wf_wk _ Hs)|].
    assert (diag_step s d0 k
            = Ok (zip_with Rplus d0 (Rmult w <$> diag_k rho_k S_k))) as Hstep.
    { unfold diag_step.
      by rewrite (idx_lookup _ _ _ Hrho), (idx_lookup _ _ _ HSk),
        (idx_lookup _ _ _ Hw). }
    destruct (IH (zip_with Rplus d0 (Rmult w <$> diag_k rho_k S_k)))
      as (d & Hd & Hlen & Hval).
    { rewrite length_zip_with, length_fmap, (diag_k_length (st_norb s)) by done.
      lia. }
    exists d. cbn [foldlM]. rewrite Hstep. simpl. repeat split; [done..|].
    intros mu x0 Hx0.
    assert (mu < st_norb s)%nat as Hmu
      by (rewrite <- Hd0; by eapply lookup_lt_Some).
    rewrite (Hval mu (x0 + w * Re (Csum ((λ nu, Cmul (at3 (st_rho s) k mu nu)
                                     (at3 (st_S s) k nu mu)) <$> seq 0 (st_norb s))))).
    + f_equal. unfold wk_at at 2. rewrite Hw. simpl.
      change (list_fmap nat R ?f ks) with (f <$> ks). lra.
    + rewrite lookup_zip_with, Hx0, list_lookup_fmap.
      by rewrite (diag_k_lookup s k mu rho_k S_k).
Qed.

Lemma MullikenAnalysis_init_diag (c : Calc) (m : MullikenAnalysis) :
  wf_state (st c) → MullikenAnalysis_init c = Ok m →
  calc m = c ∧ norb m = st_norb (st c) ∧ nk m = st_nk (st c) ∧
  wk m = st_wk (st c) ∧ N m = el_N (el c) ∧ aux m = aux_table (st c) ∧
  diag m = (λ mu, diag_value (st c) mu) <$> seq 0 (st_norb (st c)).
Proof.
  intros Hs Hinit.
  destruct (MullikenAnalysis_init_Ok c Hs) as (d' & _ & Hinit').
  rewrite Hinit in Hinit'. injection Hinit' as ->. simpl.
  repeat split.
  unfold MullikenAnalysis_init in Hinit.
  destruct (diag_loop_value (st c) (seq 0 (st_nk (st c)))
              (replicate (st_norb (st c)) 0) Hs) as (d & Hd & Hlen & Hval).
  { apply Forall_forall. intros k [_ Hk]%elem_of_seq. lia. }
  { by rewrite length_replicate. }
  rewrite Hd in Hinit. simpl in Hinit.
  apply bind_Ok in Hinit as (ax & _ & [= <-]).
  apply list_eq. intros mu. rewrite list_lookup_fmap.
  destruct (decide (mu < st_norb (st c))%nat) as [Hmu|Hmu].
  - rewrite lookup_seq_lt by done. simpl.
    rewrite (Hval mu 0) by (by apply lookup_replicate_2).
    f_equal. unfold diag_value. lra.
  - rewrite lookup_seq_ge by lia. by apply lookup_ge_None_2; lia.
Qed.

(** X2.  On an object built from a well-shaped state,
    [get_basis_mulliken(mu)] returns
    [Sum_k wk[k] * Re( Sum_nu rho[k][mu,nu] * S[k][nu,mu] )] for every
    [mu < norb] and raises [IndexError] for every other index. *)
Theorem basis_mulliken_value (c : Calc) (m : MullikenAnalysis) (mu : nat) :
  wf_state (st c) → MullikenAnalysis_init c = Ok m →
  get_basis_mulliken m mu
  = if decide (mu < st_norb (st c))%nat then Ok (diag_value (st c) mu)
    else Raise IndexError.
Proof.
  intros Hs Hinit.
  destruct (MullikenAnalysis_init_diag c m Hs Hinit) as (_&_&_&_&_&_&Hdiag).
  unfold get_basis_mulliken, idx. rewrite Hdiag, list_lookup_fmap.
  case_decide.
  - by rewrite lookup_seq_lt.
  - by rewrite lookup_seq_ge by lia.
Qed.

(** *** What the bonding constructor stores *)

Lemma MullikenBondAnalysis_init_tables (c : Calc) (b : MullikenBondAnalysis) :
  MullikenBondAnalysis_init c = Ok b →
  MullikenAnalysis_init c = Ok (bond_base b) ∧ SCC b = scc c ∧
  mapM (orbital_energy (el c)) (seq 0 (st_norb (st c))) = Ok (epsilon b) ∧
  length (rhoSk b) = st_nk (st c) ∧ length (HS b) = st_nk (st c) ∧
  length (rhoM b) = st_nk (st c) ∧
  ∀ k, (k < st_nk (st c))%nat →
    ∃ rho_k S_k H0_k,
      st_rho (st c) !! k = Some rho_k ∧ st_S (st c) !! k = Some S_k ∧
      st_H0 (st c) !! k = Some H0_k ∧
      rhoSk b !! k = Some (matmul rho_k S_k) ∧
      HS b !! k
      = Some (HS_k H0_k S_k (eps_matrix (st_norb (st c)) (epsilon b))) ∧
      rhoM b !! k
      = Some (hadamard rho_k
                (transpose (HS_k H0_k S_k
                              (eps_matrix (st_norb (st c)) (epsilon b))))).
Proof.
  unfold MullikenBondAnalysis_init.
  intros (m & Hm & (eps & Heps & (ks & Hks & [= <-])%bind_Ok)%bind_Ok)%bind_Ok.
  pose proof Hm as Hm'. unfold MullikenAnalysis_init in Hm'.
  apply bind_Ok in Hm' as (d & _ & (ax & _ & [= <-])%bind_Ok).
  simpl in *. apply mapM_Ok_inv in Hks.
  pose proof (Forall2_length _ _ _ Hks) as Hlen. rewrite length_seq in Hlen.
  repeat split; try done; try (by rewrite length_fmap).
  intros k Hk.
  destruct (lookup_lt_is_Some_2 ks k) as [t Ht]; [lia|].
  destruct (Forall2_lookup_r _ _ _ _ _ Hks Ht) as (k' & Hk' & Htk).
  apply lookup_seq in Hk' as [-> _]. simpl in Htk.
  apply bind_Ok in Htk as (rho_k & Hrho%idx_Ok & (S_k & HSk%idx_Ok &
    (H0_k & HH0%idx_Ok & [= <-])%bind_Ok)%bind_Ok).
  exists rho_k, S_k, H0_k. rewrite !list_lookup_fmap, Ht. done.
Qed.

Lemma fancy_Ok_inv {A} (d : A) (l : list A) ix r :
  fancy l ix = Ok r →
  Forall (λ i, i < length l)%nat ix ∧ r = (λ i, default d (l !! i)) <$> ix.
Proof.
  intros Hr. assert (Forall (λ i, i < length l)%nat ix) as Hix.
  { apply mapM_Ok_inv in Hr. apply Forall_forall. intros i Hi.
    apply list_elem_of_lookup in Hi as [n Hn].
    destruct (Forall2_lookup_l _ _ _ _ _ Hr Hn) as (y & _ & Hy%idx_Ok).
    by eapply lookup_lt_Some. }
  split; [done|]. rewrite (fancy_default d) in Hr by done. by injection Hr.
Qed.

(** *** Populations of one eigenstate *)

Lemma fancy_Raise {A} (l : list A) ix err : fancy l ix = Raise err → err = IndexError.
Proof.
  unfold fancy. induction ix as [|i ix IH]; [done|]. cbn [mapM].
  destruct (idx l i) as [x|e] eqn:Hx; simpl.
  - destruct (mapM (idx l) ix) as [r|e]; simpl; [done|].
    intros [= <-]. by apply IH.
  - intros [= <-]. by apply idx_Raise in Hx.
Qed.

(** X6.  For a k-point [k] in range, whenever [get_basis_wf_mulliken] or
    [get_atom_wf_mulliken] returns [v] with [wk=False], it returns
    [wk[k] * v] with [wk=True]. *)
Theorem wf_mulliken_weight (m : MullikenAnalysis) (I mu k a : nat) (w : R) :
  wk m !! k = Some w →
  (∀ v, get_basis_wf_mulliken m mu k a false = Ok v →
        get_basis_wf_mulliken m mu k a true = Ok (w * v)) ∧
  (∀ v, get_atom_wf_mulliken m I k a false = Ok v →
        get_atom_wf_mulliken m I k a true = Ok (w * v)).
Proof.
  intros Hw. unfold get_basis_wf_mulliken, get_atom_wf_mulliken, k_weight.
  rewrite (idx_lookup _ _ _ Hw). simpl. split; intros v.
  - destruct (aux_ka m k a) as [row|]; simpl; [|done].
    destruct (idx row mu); simpl; [|done]. intros [= <-]. f_equal. lra.
  - destruct (orbitals_indices _ _); simpl; [|done].
    destruct (aux_ka m k a) as [row|]; simpl; [|done].
    destruct (fancy row _); simpl; [|done]. intros [= <-]. f_equal. lra.
Qed.

(** X7.  [get_atom_all_angmom_mulliken(I)] raises [IndexError] for an atom
    without orbitals, returns [[diag[o1], 0, 0]] for an atom with one
    orbital, and has a zero d component whenever the atom has at most four
    orbitals. *)
Theorem angmom_edge_cases (m : MullikenAnalysis) (I : nat) (a : atom_info) :
  el_atoms (el (calc m)) !! I = Some a →
  (no a = 0%nat → get_atom_all_angmom_mulliken m I = Raise IndexError) ∧
  (no a = 1%nat → ∀ s, diag m !! o1 a = Some s →
     get_atom_all_angmom_mulliken m I = Ok [s; 0; 0]) ∧
  ((no a ≤ 4)%nat → ∀ pop, get_atom_all_angmom_mulliken m I = Ok pop →
     pop !! 2%nat = Some 0).
Proof.
  intros Ha. unfold get_atom_all_angmom_mulliken, orbitals_indices.
  rewrite (idx_lookup _ _ _ Ha). simpl. repeat split.
  - by intros ->.
  - intros -> s Hs. simpl. unfold fancy. simpl.
    by rewrite (idx_lookup _ _ _ Hs).
  - intros Hno pop (all & Hall & Hpop)%bind_Ok.
    apply mapM_Ok_inv, Forall2_length in Hall. rewrite length_seq in Hall.
    unfold angmom_pop in Hpop.
    apply bind_Ok in Hpop as (a0 & _ & Hpop).
    rewrite (decide_False (P := (4 < length all)%nat)) in Hpop by lia.
    injection Hpop as <-. by case_decide.
Qed.

(** *** The all-atom charges *)

Lemma get_atoms_mulliken_fmap (m : MullikenAnalysis) :
  get_atoms_mulliken m
  = (λ a, Rsum (slice (diag m) (o1 a) (o1 a + no a)) - valence a)
      <$> el_atoms (el (calc m)).
Proof.
  unfold get_atoms_mulliken, get_property_lists, get_valences.
  apply list_eq. intros I.
  rewrite lookup_zip_with, !list_lookup_fmap.
  by destruct (el_atoms (el (calc m)) !! I).
Qed.

(** X8.  Slicing clips where indexing with an index list raises: for an atom
    with orbitals whose range runs past the end of [diag],
    [get_atom_mulliken(I)] raises [IndexError], while [get_atoms_mulliken()]
    still has one entry per atom and gives that atom
    [diag[o1:].sum() - valence]. *)
Theorem atoms_mulliken_clips (m : MullikenAnalysis) (I : nat) (a : atom_info) :
  el_atoms (el (calc m)) !! I = Some a →
  (0 < no a)%nat →
  (length (diag m) < o1 a + no a)%nat →
  length (get_atoms_mulliken m) = length (el_atoms (el (calc m))) ∧
  get_atom_mulliken m I = Raise IndexError ∧
  get_atoms_mulliken m !! I
  = Some (Rsum (drop (o1 a) (diag m)) - valence a).
Proof.
  intros Ha Hno Hlen. rewrite get_atoms_mulliken_fmap. repeat split.
  - by rewrite length_fmap.
  - unfold get_atom_mulliken, orbitals_indices.
    rewrite (idx_lookup _ _ _ Ha). simpl.
    destruct (fancy (diag m) (seq (o1 a) (no a))) as [all|err] eqn:Hall; simpl.
    + apply (fancy_Ok_inv 0) in Hall as [Hin _]. rewrite Forall_forall in Hin.
      specialize (Hin (o1 a + no a - 1)%nat). rewrite elem_of_seq in Hin. lia.
    + by apply fancy_Raise in Hall as ->.
  - rewrite list_lookup_fmap, Ha. simpl. do 3 f_equal.
    unfold slice. apply take_ge. rewrite length_drop. lia.
Qed.

(** *** The density of states *)

Lemma foldl_Rmin_le x l :
  foldl Rmin x l <= x ∧ Forall (λ y, foldl Rmin x l <= y) l.
Proof.
  revert x. induction l as [|y l IH]; intros x; simpl.
  - split; [lra|constructor].
  - destruct (IH (Rmin x y)) as [H1 H2].
    pose proof (Rmin_l x y). pose proof (Rmin_r x y).
    split; [lra|]. constructor; [lra|done].
Qed.

Lemma foldl_Rmax_ge x l :
  x <= foldl Rmax x l ∧ Forall (λ y, y <= foldl Rmax x l) l.
Proof.
  revert x. induction l as [|y l IH]; intros x; simpl.
  - split; [lra|constructor].
  - destruct (IH (Rmax x y)) as [H1 H2].
    pose proof (Rmax_l x y). pose proof (Rmax_r x y).
    split; [lra|]. constructor; [lra|done].
Qed.

Lemma np_min_le l mn : np_min l = Ok mn → Forall (λ y, mn <= y) l.
Proof.
  destruct l as [|x l]; [done|]. intros [= <-].
  destruct (foldl_Rmin_le x l). by constructor.
Qed.

Lemma np_max_ge l mx : np_max l = Ok mx → Forall (λ y, y <= mx) l.
Proof.
  destruct l as [|x l]; [done|]. intros [= <-].
  destruct (foldl_Rmax_ge x l). by constructor.
Qed.

Section Dos.
Variable Hartree : R.
Variable broaden : list R → list R → R → nat → R → R → list R * list R.

Lemma DensityOfStates_init_inv (c : Calc) (d : DensityOfStates) :
  DensityOfStates_init Hartree c = Ok d →
  MullikenAnalysis_init c = Ok (dos_base d) ∧
  dos_e d = fmap (M := list) (fmap (M := list) (λ x, x * Hartree - fermi_level c))
              (st_e (st c)) ∧
  eflat d = mjoin (dos_e d) ∧
  np_min (eflat d) = Ok (emin d) ∧ np_max (eflat d) = Ok (emax d).
Proof.
  unfold DensityOfStates_init.
  intros (m & Hm & (mn & Hmn & (mx & Hmx & [= <-])%bind_Ok)%bind_Ok)%bind_Ok.
  done.
Qed.

(** X10.  Whenever the [DensityOfStates] constructor returns, there is at
    least one eigenvalue, [emin <= emax], and every shifted eigenvalue
    [e[k,a]] lies between [emin] and [emax]. *)
Theorem dos_init_bounds (c : Calc) (d : DensityOfStates) :
  DensityOfStates_init Hartree c = Ok d →
  eflat d ≠ [] ∧ emin d <= emax d ∧
  Forall (Forall (λ x, emin d <= x <= emax d)) (dos_e d).
Proof.
  intros (_ & _ & Hflat & Hmn & Hmx)%DensityOfStates_init_inv.
  pose proof (np_min_le _ _ Hmn) as Hlo. pose proof (np_max_ge _ _ Hmx) as Hhi.
  assert (Forall (λ x, emin d <= x <= emax d) (eflat d)) as Hall.
  { rewrite Forall_forall in Hlo, Hhi. apply Forall_forall. intros x Hx.
    split; [by apply Hlo|by apply Hhi]. }
  repeat split.
  - intros Hnil. by rewrite Hnil in Hmn.
  - destruct (eflat d) as [|x l]; [done|]. inversion Hall; subst. lra.
  - rewrite Hflat in Hall. clear -Hall.
    induction (dos_e d) as [|row e IH]; [constructor|].
    simpl in Hall. apply Forall_app in Hall as [??]. constructor; auto.
Qed.

(** X11.  Without eigenvalues (an empty [st.e]) the [DensityOfStates]
    constructor raises [ValueError], from [eflat.min()]. *)
Theorem dos_init_empty (c : Calc) (m : MullikenAnalysis) :
  MullikenAnalysis_init c = Ok m →
  mjoin (st_e (st c)) = [] →
  DensityOfStates_init Hartree c = Raise ValueError.
Proof.
  intros Hm Hnil. unfold DensityOfStates_init. rewrite Hm. simpl.
  assert (mjoin (fmap (M := list) (fmap (M := list)
            (λ x, x * Hartree - fermi_level c)) (st_e (st c))) = []) as ->; [|done].
  revert Hnil. induction (st_e (st c)) as [|row e IH]; [done|].
  rewrite fmap_cons. cbn [mjoin list_join].
  intros [-> He]%app_eq_nil. by apply IH.
Qed.

(** X12.  [get_density_of_states] raises [AssertionError] when [projected]
    and [occu] are both set, whatever the other arguments. *)
Theorem dos_projected_occu_raises (d : DensityOfStates) (broaden_flag : bool)
  (width : R) (window : option (R * R)) (npts : nat) :
  get_density_of_states broaden d broaden_flag true true width window npts
  = Raise AssertionError.
Proof. unfold get_density_of_states. by destruct broaden_flag. Qed.

End Dos.

Section LdosShapes.
Variable broaden : list R → list R → R → nat → R → R → list R * list R.

Lemma ldos_atom_shape_any d projected width npts mn mx sel i r :
  ldos_atom broaden d projected width npts mn mx sel i = Ok r →
  length r.1.2 = npts ∧
  (if projected then shape2 3 npts r.2 ∧ sel ≠ [] else r.2 = []).
Proof.
  unfold ldos_atom.
  intros (q & _ & (row & Hrow%assign_row_length & Hr)%bind_Ok)%bind_Ok.
  destruct projected.
  - apply bind_Ok in Hr as (qa & Hqa & (prows & Hprows & [= <-])%bind_Ok).
    simpl. split; [done|]. apply mapM_Ok_inv in Hprows.
    pose proof (Forall2_length _ _ _ Hprows) as Hlen. simpl in Hlen.
    repeat split.
    + by rewrite length_fmap.
    + apply Forall_fmap, Forall_forall.
      intros pr Hpr. apply list_elem_of_lookup in Hpr as [l Hl].
      destruct (Forall2_lookup_r _ _ _ _ _ Hprows Hl) as (l' & _ & Hpl).
      apply bind_Ok in Hpl
        as (ql & _ & (prow & Hp%assign_row_length & [= <-])%bind_Ok).
      done.
    + intros ->. simpl in Hqa. injection Hqa as <-.
      inversion Hprows as [|???? H0 _]; subst. by simpl in H0.
  - by injection Hr as <-.
Qed.

(** X13.  Whenever [get_local_density_of_states] returns, there is at least
    one atom, [ldos] has shape [(N, npts)], and [pldos] is returned exactly
    when [projected] is set and then has shape [(N, 3, npts)]. *)
Theorem ldos_shapes (d : DensityOfStates) (projected : bool) (width : R)
  (window : option (R * R)) (npts : nat) (egrid : list R)
  (ldos : list (list R)) (pl : option (list (list (list R)))) :
  get_local_density_of_states broaden d projected width window npts
    = Ok (egrid, ldos, pl) →
  (0 < N (dos_base d))%nat ∧ shape2 (N (dos_base d)) npts ldos ∧
  match pl with
  | Some pldos => projected = true ∧ length pldos = N (dos_base d) ∧
                  Forall (shape2 3 npts) pldos
  | None => projected = false
  end.
Proof.
  unfold get_local_density_of_states. destruct (dos_window d window) as [mn mx].
  intros (sel & _ & (rows & Hrows & Hret)%bind_Ok)%bind_Ok.
  apply mapM_Ok_inv in Hrows.
  pose proof (Forall2_length _ _ _ Hrows) as Hlen. rewrite length_seq in Hlen.
  assert (Forall (λ r : list R * list R * list (list R),
            length r.1.2 = npts ∧
            (if projected then shape2 3 npts r.2 ∧ sel ≠ [] else r.2 = [])) rows)
    as Hshape.
  { apply Forall_forall. intros r Hr.
    apply list_elem_of_lookup in Hr as [i Hi].
    destruct (Forall2_lookup_r _ _ _ _ _ Hrows Hi) as (i' & _ & Hatom).
    by eapply ldos_atom_shape_any. }
  assert (rows ≠ [] ∧ ldos = (λ r : list R * list R * list (list R), r.1.2) <$> rows
          ∧ pl = if projected
                 then Some ((λ r : list R * list R * list (list R), r.2) <$> rows)
                 else None) as (Hne & -> & ->).
  { destruct projected.
    - apply bind_Ok in Hret as (u & _ & Hret).
      destruct rows; [done|]. simpl in Hret.
      destruct (last _); [|done]. by injection Hret as <- <- <-.
    - destruct rows; [done|]. simpl in Hret.
      destruct (last _); [|done]. by injection Hret as <- <- <-. }
  split; [destruct rows; [done|simpl in Hlen; lia]|]. split.
  - split; [by rewrite length_fmap|].
    apply Forall_fmap. eapply Forall_impl; [exact Hshape|]. by intros r [? _].
  - destruct projected; [|done]. repeat split; [by rewrite length_fmap|].
    apply Forall_fmap. eapply Forall_impl; [exact Hshape|]. by intros r [_ [? _]].
Qed.

Lemma states_in_window_cells d mn mx sel c :
  states_in_window d mn mx = Ok sel → c ∈ sel →
  (mn <= c.2 <= mx) ∧
  ∃ row, dos_e d !! c.1.1 = Some row ∧ row !! c.1.2 = Some c.2.
Proof.
  unfold states_in_window. intros (cells & Hcells & [= <-])%bind_Ok.
  intros [HP Hc]%list_elem_of_filter. split; [done|].
  apply list_elem_of_join in Hc as (rowc & Hc & Hrowc).
  apply mapM_Ok_inv in Hcells.
  apply list_elem_of_lookup in Hrowc as [n Hn].
  destruct (Forall2_lookup_r _ _ _ _ _ Hcells Hn) as (k & _ & Hk).
  apply mapM_Ok_inv in Hk.
  apply list_elem_of_lookup in Hc as [j Hj].
  destruct (Forall2_lookup_r _ _ _ _ _ Hk Hj) as (a & _ & Ha).
  apply bind_Ok in Ha as (row & Hrow%idx_Ok & (x & Hx%idx_Ok & [= <-])%bind_Ok).
  by exists row.
Qed.

(** X14.  With [projected=True], [get_local_density_of_states] returns only
    if some eigenvalue [e[k,a]] lies in the energy window. *)
Theorem projected_ldos_needs_state (d : DensityOfStates) (width : R)
  (window : option (R * R)) (npts : nat)
  (r : list R * list (list R) * option (list (list (list R)))) :
  get_local_density_of_states broaden d true width window npts = Ok r →
  ∃ k a row x, dos_e d !! k = Some row ∧ row !! a = Some x ∧
               (dos_window d window).1 <= x <= (dos_window d window).2.
Proof.
  unfold get_local_density_of_states. destruct (dos_window d window) as [mn mx].
  intros (sel & Hsel & (rows & Hrows & Hret)%bind_Ok)%bind_Ok.
  apply mapM_Ok_inv in Hrows.
  assert (sel ≠ []) as Hne.
  { destruct rows as [|r0 rows].
    - apply bind_Ok in Hret as (u & _ & Hret). done.
    - inversion Hrows as [|???? H0 _]; subst.
      by apply ldos_atom_shape_any in H0 as [_ [_ ?]]. }
  destruct sel as [|c sel]; [done|].
  destruct (states_in_window_cells d mn mx (c :: sel) c Hsel) as [HP (row & ? & ?)];
    [by left|].
  by exists c.1.1, c.1.2, row, c.2.
Qed.

End LdosShapes.

Lemma col_idx_column {A} c (M : list (list A)) a :
  Forall (λ row, length row = c) M → (a < c)%nat → col_idx M a = Ok (column a M).
Proof.
  intros HM Ha. unfold col_idx. induction HM as [|row M Hrow _ IH]; [done|].
  destruct (lookup_lt_is_Some_2 row a) as [x Hx]; [lia|].
  rewrite (column_cons _ _ _ _ Hx).
  cbn [mapM]. rewrite (idx_lookup _ _ _ Hx). simpl. by rewrite IH.
Qed.

Lemma shape2_fmap {A B} (g : A → B) r c (M : list (list A)) :
  shape2 r c M → shape2 r c (fmap (M := list) (fmap (M := list) g) M).
Proof.
  intros [Hlen Hrows]. split; [by rewrite length_fmap|].
  apply Forall_fmap. eapply Forall_impl; [exact Hrows|].
  intros row Hrow. simpl. by rewrite length_fmap.
Qed.

Lemma mjoin_replicate_seq {A} (l : list A) a n :
  mjoin ((λ _, l) <$> seq a n) = mjoin (replicate n l).
Proof. revert a. induction n as [|n IH]; intros a; [done|]. simpl. by rewrite IH. Qed.

Section RawDos.
Variable Hartree : R.
Variable broaden : list R → list R → R → nat → R → R → list R * list R.

Lemma dos_raw_loop (e f : list (list R)) (w : list R) c cols acc :
  Forall (λ row, length row = c) e → Forall (λ row, length row = c) f →
  Forall (λ a, a < c)%nat cols →
  foldlM (λ (acc : list R * list R * list R) a,
            xa ← col_idx e a; fa ← col_idx f a;
            Ok (acc.1.1 ++ xa, acc.1.2 ++ w, acc.2 ++ fa)) cols acc
  = Ok (acc.1.1 ++ mjoin ((λ a, column a e) <$> cols),
        acc.1.2 ++ mjoin ((λ _, w) <$> cols),
        acc.2 ++ mjoin ((λ a, column a f) <$> cols)).
Proof.
  intros He Hf Hcols. revert acc.
  induction Hcols as [|a cols Ha _ IH]; intros [[x y] z].
  - simpl. by rewrite !app_nil_r.
  - cbn [foldlM]. rewrite (col_idx_column c e a), (col_idx_column c f a) by done.
    simpl. rewrite IH. simpl. by rewrite <- !app_assoc.
Qed.

(** X15.  Without broadening and projection, [get_density_of_states] on a
    well-shaped state with [el.norb = st.norb] returns the eigenvalues state
    by state ([a] outermost, [k] innermost), the k-point weights repeated
    once per state, and with [occu] the occupations in the same order. *)
Theorem dos_raw_output (c : Calc) (d : DensityOfStates) (occu : bool)
  (width : R) (window : option (R * R)) (npts : nat) :
  wf_state (st c) → DensityOfStates_init Hartree c = Ok d →
  el_norb (el c) = st_norb (st c) →
  get_density_of_states broaden d false false occu width window npts
  = Ok (let x := mjoin (transpose (dos_e d)) in
        let y := mjoin (replicate (st_norb (st c)) (st_wk (st c))) in
        let f := mjoin (transpose (st_f (st c))) in
        if occu then DosOccu x y f else DosPlain x y).
Proof.
  intros Hs Hinit Hnorb.
  destruct (DensityOfStates_init_inv Hartree c d Hinit)
    as (Hm & He & Hflat & Hmn & _).
  assert (eflat d ≠ []) as Hne by (intros Hnil; by rewrite Hnil in Hmn).
  destruct (MullikenAnalysis_init_diag c _ Hs Hm) as (Hc & _).
  pose proof (shape2_fmap (λ x, x * Hartree - fermi_level c) _ _ _ (wf_e _ Hs))
    as Hes. rewrite <- He in Hes.
  pose proof (wf_f _ Hs) as Hfs.
  assert (0 < st_nk (st c))%nat as Hnk.
  { destruct Hes as [<- _]. destruct (dos_e d); [|simpl; lia].
    by rewrite Hflat in Hne. }
  unfold get_density_of_states. simpl.
  destruct (dos_window d window) as [mn mx]. rewrite Hc, Hnorb.
  rewrite (dos_raw_loop _ _ _ (st_norb (st c)));
    [|apply Hes|apply Hfs|apply Forall_forall; by intros a [_ ?]%elem_of_seq].
  simpl. unfold transpose.
  rewrite (shape2_ncols _ _ _ Hes Hnk), (shape2_ncols _ _ _ Hfs Hnk).
  rewrite mjoin_replicate_seq. by destruct occu.
Qed.

End RawDos.

(** *** Promotion and atom energies *)

Lemma py_assert_Ok (P : Prop) `{Decision P} {A} (k : unit → result A) :
  P → (u ← py_assert (bool_decide P); k u) = k tt.
Proof. intros HP. by rewrite bool_decide_eq_true_2. Qed.

Lemma foldlM_Raise {A S} (body : S → A → result S) (Q : exn → Prop) l s err :
  (∀ s x e, body s x = Raise e → Q e) →
  foldlM body l s = Raise err → Q err.
Proof.
  intros Hbody. revert s. induction l as [|x l IH]; intros s; [done|].
  cbn [foldlM]. destruct (body s x) as [s'|e] eqn:Hb; simpl.
  - apply IH.
  - intros [= <-]. by eapply Hbody.
Qed.

Section Promotion.
Variables (Hartree Bohr : R).

Lemma promotion_energy_Raise (b : MullikenBondAnalysis) (I : nat) (err : exn) :
  get_promotion_energy Hartree b I = Raise err → err = IndexError.
Proof.
  unfold get_promotion_energy, orbitals_indices.
  destruct (idx _ I) as [a|e] eqn:Ha; simpl;
    [|intros [= <-]; by apply idx_Raise in Ha].
  destruct (foldlM _ _ _) as [e|e0] eqn:He; simpl.
  - rewrite py_assert_Ok; [done|]. rewrite Rabs_R0. lra.
  - intros [= <-]. revert He.
    apply (foldlM_Raise _ (λ e, e = IndexError)). clear.
    intros s mu e. unfold get_basis_mulliken, get_free_population, orbital_energy.
    destruct (idx (diag _) mu) as [q|e1] eqn:H1; simpl;
      [|intros [= <-]; by apply idx_Raise in H1].
    destruct (idx (el_orb _) mu) as [o|e2] eqn:H2; simpl;
      [done|intros [= <-]; by apply idx_Raise in H2].
Qed.

(** X16.  [get_promotion_energy(I)] can only raise [IndexError]: its
    assertion on the imaginary part never fires. *)
Theorem promotion_energy_errors (b : MullikenBondAnalysis) (I : nat) (err : exn) :
  get_promotion_energy Hartree b I = Raise err → err = IndexError.
Proof. apply promotion_energy_Raise. Qed.

(** X17.  If every orbital of atom [I] carries its free-atom population,
    [get_promotion_energy(I)] returns zero. *)
Theorem promotion_energy_at_reference (b : MullikenBondAnalysis) (I : nat)
  (a : atom_info) :
  el_atoms (el (calc (bond_base b))) !! I = Some a →
  (∀ mu, (o1 a ≤ mu < o1 a + no a)%nat →
     ∃ o, el_orb (el (calc (bond_base b))) !! mu = Some o ∧
          diag (bond_base b) !! mu = Some (free_population o)) →
  get_promotion_energy Hartree b I = Ok 0.
Proof.
  intros Ha Href. unfold get_promotion_energy, orbitals_indices.
  rewrite (idx_lookup _ _ _ Ha). simpl.
  assert (∀ orbs e, Forall (λ mu, o1 a ≤ mu < o1 a + no a)%nat orbs →
            foldlM (λ e mu,
              q ← get_basis_mulliken (bond_base b) mu;
              q0 ← get_free_population (el (calc (bond_base b))) mu;
              emu ← orbital_energy (el (calc (bond_base b))) mu;
              Ok (e + (q - q0) * emu)) orbs e = Ok e) as Hloop.
  { intros orbs e Horbs. induction Horbs as [|mu orbs Hmu _ IH]; [done|].
    destruct (Href mu Hmu) as (o & Ho & Hq).
    cbn [foldlM]. unfold get_basis_mulliken, get_free_population, orbital_energy.
    rewrite (idx_lookup _ _ _ Hq), (idx_lookup _ _ _ Ho). simpl.
    replace (e + (free_population o - free_population o) * energy o) with e
      by lra.
    apply IH. }
  rewrite Hloop by (apply Forall_forall; intros mu ?%elem_of_seq; lia).
  simpl. rewrite py_assert_Ok by (rewrite Rabs_R0; lra). f_equal. lra.
Qed.

End Promotion.

Section AtomEnergy.
Variables (Hartree Bohr : R).

(** X18.  [get_atom_energy(I)] for an atom index [I] can raise only
    [IndexError], from one of its lookups, or [AssertionError], from its
    check of the imaginary part. *)
Theorem atom_energy_errors (b : MullikenBondAnalysis) (I : nat) (err : exn) :
  get_atom_energy Hartree Bohr b I = Raise err →
  err = IndexError ∨ err = AssertionError.
Proof.
  unfold get_atom_energy.
  destruct (if SCC b then _ else _) as [coul|e] eqn:Hcoul; simpl.
  2:{ intros [= <-]. left. destruct (SCC b); [|done].
      destruct (idx (es_G _) I) as [G_I|e1] eqn:H1; simpl in Hcoul;
        [|injection Hcoul as <-; by apply idx_Raise in H1].
      destruct (idx G_I I) as [G_II|e2] eqn:H2; simpl in Hcoul;
        [|injection Hcoul as <-; by apply idx_Raise in H2].
      destruct (idx (st_dq _) I) as [dq_I|e3] eqn:H3; simpl in Hcoul;
        [|injection Hcoul as <-; by apply idx_Raise in H3].
      destruct (idx (coulomb_potential _) I) as [pot|e4] eqn:H4; simpl in Hcoul;
        [done|injection Hcoul as <-; by apply idx_Raise in H4]. }
  destruct (idx (get_property_lists _) I) as [[o1 no]|e] eqn:Hp; simpl;
    [|intros [= <-]; left; by apply idx_Raise in Hp].
  destruct (foldlM _ _ _) as [eorb|e] eqn:Heorb; simpl.
  2:{ intros [= <-]. left. revert Heorb.
      apply (foldlM_Raise _ (λ e', e' = IndexError)). intros s kw e'.
      destruct (idx (rhoM b) kw.1) eqn:HM; simpl;
        [done|intros [= <-]; by apply idx_Raise in HM]. }
  destruct (get_promotion_energy Hartree b I) as [prom|e] eqn:Hprom; simpl;
    [|intros [= <-]; left; by apply promotion_energy_Raise in Hprom].
  destruct (bool_decide _); simpl; [done|]. intros [= <-]. by right.
Qed.

End AtomEnergy.

(** *** The bonding constructor *)

Lemma mapM_is_Ok {A B} (f : A → result B) l :
  (∀ x, x ∈ l → ∃ y, f x = Ok y) → ∃ r, mapM f l = Ok r.
Proof.
  induction l as [|x l IH]; intros Hf; [by exists []|].
  destruct (Hf x) as [y Hy]; [by left|].
  destruct IH as [r Hr]; [intros ??; apply Hf; by right|].
  exists (y :: r). cbn [mapM]. rewrite Hy. simpl. by rewrite Hr.
Qed.

Lemma mapM_Raise_inv {A B} (f : A → result B) l err :
  mapM f l = Raise err → ∃ x, x ∈ l ∧ f x = Raise err.
Proof.
  induction l as [|x l IH]; [done|]. cbn [mapM].
  destruct (f x) as [y|e] eqn:Hx; simpl.
  - destruct (mapM f l) as [r|e]; simpl; [done|]. intros [= <-].
    destruct IH as (x' & ? & ?); [done|]. exists x'. split; [by right|done].
  - intros [= <-]. exists x. split; [by left|done].
Qed.

(** X19.  On a well-shaped state the [MullikenBondAnalysis] constructor
    returns when the element table lists at least [st.norb] orbitals, and
    raises [IndexError] when it lists fewer. *)
Theorem bond_init_orbital_table (c : Calc) :
  wf_state (st c) →
  ((st_norb (st c) ≤ el_norb (el c))%nat →
     ∃ b, MullikenBondAnalysis_init c = Ok b) ∧
  ((el_norb (el c) < st_norb (st c))%nat →
     MullikenBondAnalysis_init c = Raise IndexError).
Proof.
  intros Hs. destruct (MullikenAnalysis_init_Ok c Hs) as (d & _ & Hm).
  unfold MullikenBondAnalysis_init. rewrite Hm. simpl. split.
  - intros Hle.
    destruct (mapM_is_Ok (orbital_energy (el c)) (seq 0 (st_norb (st c))))
      as [eps ->].
    { intros mu [_ Hmu]%elem_of_seq. unfold orbital_energy.
      destruct (lookup_lt_is_Some_2 (el_orb (el c)) mu) as [o Ho];
        [unfold el_norb in Hle; lia|].
      rewrite (idx_lookup _ _ _ Ho). simpl. eauto. }
    simpl.
    match goal with |- ∃ b, (mapM ?f ?l ≫= _) = _ =>
      destruct (mapM_is_Ok f l) as [ks ->] end; [|simpl; eauto].
    intros k [_ Hk]%elem_of_seq. rewrite Nat.add_0_l in Hk.
    destruct (shape3_lookup _ _ _ _ _ (wf_rho _ Hs) Hk) as (rho_k & Hr & _).
    destruct (shape3_lookup _ _ _ _ _ (wf_S _ Hs) Hk) as (S_k & HS & _).
    destruct (shape3_lookup _ _ _ _ _ (wf_H0 _ Hs) Hk) as (H0_k & HH & _).
    rewrite (idx_lookup _ _ _ Hr). simpl. rewrite (idx_lookup _ _ _ HS). simpl.
    rewrite (idx_lookup _ _ _ HH). simpl. eauto.
  - intros Hlt.
    destruct (mapM (orbital_energy (el c)) (seq 0 (st_norb (st c))))
      as [eps|err] eqn:Heps; simpl.
    + apply mapM_Ok_inv in Heps.
      destruct (Forall2_lookup_l _ _ _ _ _ Heps
                  (lookup_seq_lt 0 (st_norb (st c)) (el_norb (el c)) Hlt))
        as (y & _ & Hy).
      unfold orbital_energy, idx in Hy.
      rewrite lookup_ge_None_2 in Hy by (unfold el_norb; lia). done.
    + apply mapM_Raise_inv in Heps as (mu & _ & Hmu).
      unfold orbital_energy in Hmu.
      destruct (idx (el_orb (el c)) mu) eqn:Ho; [done|].
      simpl in Hmu. injection Hmu as <-. by apply idx_Raise in Ho as ->.
Qed.

(** X20.  On a well-shaped state with Hermitian [H0[k]] and [S[k]], every
    [HS[k] = H0[k] - S[k]*eps] the constructor stores is Hermitian. *)
Theorem HS_hermitian (c : Calc) (b : MullikenBondAnalysis) :
  wf_state (st c) → MullikenBondAnalysis_init c = Ok b →
  Forall hermitian (st_H0 (st c)) → Forall hermitian (st_S (st c)) →
  Forall hermitian (HS b).
Proof.
  intros Hs Hinit HH0 HS.
  destruct (MullikenBondAnalysis_init_tables c b Hinit)
    as (_ & _ & Heps & _ & HlenHS & _ & Htab).
  apply mapM_Ok_inv, Forall2_length in Heps. rewrite length_seq in Heps.
  apply Forall_lookup_2. intros k M HM.
  assert (k < st_nk (st c))%nat as Hk
    by (rewrite <- HlenHS; by eapply lookup_lt_Some).
  destruct (Htab k Hk) as (rho_k & S_k & H0_k & _ & HSk & HH0k & _ & HHS & _).
  rewrite HM in HHS. injection HHS as ->.
  pose proof (wf_H0 _ Hs) as [_ Hhs]. pose proof (wf_S _ Hs) as [_ Hss].
  pose proof (Forall_lookup_1 _ _ _ _ Hhs HH0k) as Hhshape.
  pose proof (Forall_lookup_1 _ _ _ _ Hss HSk) as Hsshape.
  pose proof (Forall_lookup_1 _ _ _ _ HH0 HH0k) as Hhh.
  pose proof (Forall_lookup_1 _ _ _ _ HS HSk) as Hsh.
  set (n := st_norb (st c)) in *.
  pose proof (eps_matrix_shape n (epsilon b) (eq_sym Heps)) as Hes.
  intros mu nu x. unfold HS_k, msub, mscale. rewrite !get2_zip_with.
  rewrite (eps_matrix_sym n (epsilon b) nu mu) by done.
  destruct (get2 H0_k mu nu) as [h|] eqn:Hh; simpl; [|done].
  destruct (get2 S_k mu nu) as [s|] eqn:Hs'; simpl; [|done].
  destruct (get2 (eps_matrix n (epsilon b)) mu nu) as [t|] eqn:Ht; simpl; [|done].
  intros [= <-]. rewrite (Hhh _ _ _ Hh), (Hsh _ _ _ Hs'). simpl.
  f_equal. apply C_eq; unfold Csub, Cscale, Cconj; simpl; ring.
Qed.

(** *** The eigenstate loop of [get_covalent_energy] *)

Lemma foldlM_app {A S} (body : S → A → result S) l1 l2 s :
  foldlM body (l1 ++ l2) s = (s' ← foldlM body l1 s; foldlM body l2 s').
Proof.
  revert s. induction l1 as [|x l1 IH]; intros s; [done|].
  cbn [foldlM app]. destruct (body s x) as [s'|e]; simpl; [apply IH|done].
Qed.

Lemma foldlM_fmap {A B S} (body : S → B → result S) (g : A → B) l s :
  foldlM body (g <$> l) s = foldlM (λ s x, body s (g x)) l s.
Proof.
  revert s. induction l as [|x l IH]; intros s; [done|].
  rewrite fmap_cons. cbn [foldlM].
  destruct (body s (g x)) as [s'|e]; simpl; [apply IH|done].
Qed.

(** Two nested loops are one loop over the pairs, in the same order. *)
Lemma foldlM_nested {A B S} (body : S → A → B → result S) xs ys s :
  foldlM (λ s x, foldlM (λ s y, body s x y) ys s) xs s
  = foldlM (λ s (p : A * B), body s p.1 p.2)
      (mjoin ((λ x, (λ y, (x, y)) <$> ys) <$> xs)) s.
Proof.
  revert s. induction xs as [|x xs IH]; intros s; [done|].
  cbn [foldlM]. rewrite fmap_cons. cbn [mjoin list_join].
  rewrite foldlM_app, foldlM_fmap. simpl.
  destruct (foldlM _ ys s) as [s'|e]; simpl; [apply IH|done].
Qed.

Section Loop.
Context {A : Type} (P : R → Prop) `{∀ x, Decision (P x)}.
Context (val : A → R) (F : A → result C).

Lemma cov_loop_body_False xy c :
  ¬ P (val c) → cov_loop_body P val F xy c = Ok xy.
Proof. intros Hc. unfold cov_loop_body. by rewrite decide_False. Qed.

Lemma cov_loop_body_True xy c :
  P (val c) →
  cov_loop_body P val F xy c = (y ← F c; Ok (xy.1 ++ [val c], xy.2 ++ [y])).
Proof. intros Hc. unfold cov_loop_body. by rewrite decide_True. Qed.

Lemma cov_loop_skip cs xy :
  Forall (λ c, ¬ P (val c)) cs → foldlM (cov_loop_body P val F) cs xy = Ok xy.
Proof.
  intros Hcs. induction Hcs as [|c cs Hc _ IH]; [done|].
  cbn [foldlM]. by rewrite cov_loop_body_False.
Qed.

Lemma cov_loop_raise cs xy err :
  (∀ c, F c = Raise err) → Exists (λ c, P (val c)) cs →
  foldlM (cov_loop_body P val F) cs xy = Raise err.
Proof.
  intros HF Hcs. induction cs as [|c cs IH]; [by inversion Hcs|].
  cbn [foldlM]. destruct (decide (P (val c))) as [Hc|Hc].
  - by rewrite cov_loop_body_True, HF.
  - rewrite cov_loop_body_False by done. simpl. apply IH. by inversion Hcs.
Qed.

Lemma cov_loop_Ok cs xy x y :
  foldlM (cov_loop_body P val F) cs xy = Ok (x, y) →
  x = xy.1 ++ filter P (val <$> cs) ∧
  length y = (length xy.2 + length (filter P (val <$> cs)))%nat.
Proof.
  revert xy. induction cs as [|c cs IH]; intros xy.
  - intros [= ->]. simpl. rewrite app_nil_r. split; [done|lia].
  - cbn [foldlM]. rewrite fmap_cons.
    destruct (decide (P (val c))) as [Hc|Hc].
    + rewrite cov_loop_body_True, filter_cons_True by done.
      intros (xy' & (yc & _ & [= <-])%bind_Ok & Hrest)%bind_Ok.
      apply IH in Hrest as [-> ->]. simpl.
      rewrite <- app_assoc, length_app. simpl. split; [done|lia].
    + rewrite cov_loop_body_False, filter_cons_False by done. simpl. apply IH.
Qed.

End Loop.

Lemma mjoin_cons {A} (l : list A) ls : mjoin (l :: ls) = l ++ mjoin ls.
Proof. done. Qed.

Lemma enumerate_fst {A} (l : list A) : (enumerate l).*1 = seq 0 (length l).
Proof. unfold enumerate. apply fst_zip. by rewrite length_seq. Qed.

Lemma cov_cells_bounds (m : MullikenAnalysis) c :
  c ∈ cov_cells m → (c.1.1 < length (wk m))%nat ∧ (c.2 < norb m)%nat.
Proof.
  unfold cov_cells. intros (l & Hc & Hl)%list_elem_of_join.
  apply list_elem_of_fmap in Hl as (kw & -> & Hkw).
  apply list_elem_of_fmap in Hc as (a & -> & [_ Ha]%elem_of_seq). simpl.
  split; [|lia].
  assert (kw.1 ∈ (enumerate (wk m)).*1) as Hin by (by apply list_elem_of_fmap_2).
  rewrite enumerate_fst in Hin. apply elem_of_seq in Hin. lia.
Qed.

Lemma cov_cells_energies (s : State) (m : MullikenAnalysis) :
  shape2 (length (wk m)) (norb m) (cov_energy s) →
  cov_val s <$> cov_cells m = mjoin (cov_energy s).
Proof.
  intros [Hlen Hrows]. unfold cov_cells.
  transitivity (mjoin ((λ k, (λ a, default 0 (get2 (cov_energy s) k a))
                               <$> seq 0 (norb m)) <$> (enumerate (wk m)).*1)).
  - generalize (enumerate (wk m)). intros l.
    induction l as [|kw l IH]; [done|].
    rewrite !fmap_cons, !mjoin_cons, fmap_app, IH, <- list_fmap_compose.
    done.
  - rewrite enumerate_fst, <- Hlen. f_equal.
    transitivity ((λ k, default [] (cov_energy s !! k))
                    <$> seq 0 (length (cov_energy s)));
      [|apply fmap_lookup_seq].
    apply list_fmap_ext. intros i k [Hki Hk]%lookup_seq. simpl in Hki.
    subst i. simpl.
    destruct (lookup_lt_is_Some_2 (cov_energy s) k Hk) as [row Hrow].
    rewrite Hrow. simpl.
    rewrite <- (Forall_lookup_1 _ _ _ _ Hrows Hrow).
    transitivity ((λ a, default 0 (row !! a)) <$> seq 0 (length row));
      [|apply fmap_lookup_seq].
    apply list_fmap_ext. intros ? a _. unfold get2. by rewrite Hrow.
Qed.

Lemma filter_Forall_id {A} (P : A → Prop) `{∀ x, Decision (P x)} (l : list A) :
  Forall P l → filter P l = l.
Proof.
  intros Hl. induction Hl as [|x l Hx _ IH]; [done|].
  by rewrite filter_cons_True, IH.
Qed.

Lemma foldl_Rmin_elem x l : foldl Rmin x l ∈ x :: l.
Proof.
  revert x. induction l as [|y l IH]; intros x; simpl; [by left|].
  specialize (IH (Rmin x y)). apply elem_of_cons in IH as [->|IH].
  - unfold Rmin. destruct (Rle_dec x y); [by left|right; by left].
  - by do 2 right.
Qed.

Lemma np_min_elem l mn : np_min l = Ok mn → mn ∈ l.
Proof.
  destruct l as [|x l]; [done|]. intros [= <-]. apply foldl_Rmin_elem.
Qed.

Section Covalent.
Variable Hartree : R.
Variable broaden : list R → list R → R → nat → R → R → list R * list R.

(** The two loops, with the eigenvalue lookups resolved. *)
Lemma cov_loop_resolved (b : MullikenBondAnalysis) (md : cov_mode) (i j : nat)
  (mn mx : R) xy0 :
  let m := bond_base b in
  let s := st (calc m) in
  shape2 (length (wk m)) (norb m) (cov_energy s) →
  foldlM (λ xy kw,
     foldlM (λ (xy : list R * list C) a,
        e_k ← idx (cov_energy s) kw.1;
        en ← idx e_k a;
        if decide (mn <= en ∧ en <= mx) then
          y ← cov_state b md i j kw.1 kw.2 a;
          Ok (xy.1 ++ [en], xy.2 ++ [y])
        else Ok xy)
     (seq 0 (norb m)) xy) (enumerate (wk m)) xy0
  = foldlM (cov_loop_body (λ en, mn <= en ∧ en <= mx) (cov_val s)
              (λ c, cov_state b md i j c.1.1 c.1.2 c.2))
      (cov_cells m) xy0.
Proof.
  intros m s Hshape.
  rewrite (foldlM_nested
    (λ (xy : list R * list C) (kw : nat * R) a,
       e_k ← idx (cov_energy s) kw.1; en ← idx e_k a;
       if decide (mn <= en ∧ en <= mx) then
         y ← cov_state b md i j kw.1 kw.2 a; Ok (xy.1 ++ [en], xy.2 ++ [y])
       else Ok xy)).
  apply foldlM_ext. intros xy c Hc.
  destruct (cov_cells_bounds m c Hc) as [Hk Ha].
  destruct (shape2_lookup _ _ _ _ Hshape Hk) as (row & Hrow & Hlen).
  destruct (lookup_lt_is_Some_2 row c.2) as [en Hen]; [lia|].
  rewrite (idx_lookup _ _ _ Hrow). simpl. rewrite (idx_lookup _ _ _ Hen). simpl.
  unfold cov_loop_body, cov_val, get2. rewrite Hrow. simpl. rewrite Hen. done.
Qed.

Lemma cov_shape (c : Calc) (b : MullikenBondAnalysis) :
  wf_state (st c) → MullikenBondAnalysis_init c = Ok b →
  calc (bond_base b) = c ∧
  shape2 (length (wk (bond_base b))) (norb (bond_base b)) (cov_energy (st c)).
Proof.
  intros Hs Hinit.
  destruct (MullikenBondAnalysis_init_tables c b Hinit) as (Hm & _).
  destruct (MullikenAnalysis_init_diag c _ Hs Hm) as (Hc & Hnorb & _ & Hwk & _).
  split; [done|]. rewrite Hwk, Hnorb, (wf_wk _ Hs).
  apply shape2_fmap, (wf_e _ Hs).
Qed.

Lemma cov_prepare_unknown (b : MullikenBondAnalysis) (mode : string) i j :
  mode ≠ "default"%string → mode ≠ "orbitals"%string →
  mode ≠ "atoms"%string → mode ≠ "angmom"%string →
  cov_prepare b mode i j = Ok ModeUnknown.
Proof.
  intros H1 H2 H3 H4. unfold cov_prepare.
  by rewrite (proj2 (String.eqb_neq _ _) H4), (proj2 (String.eqb_neq _ _) H3),
    (proj2 (String.eqb_neq _ _) H1), (proj2 (String.eqb_neq _ _) H2).
Qed.

(** X21.  Whenever [get_covalent_energy] returns without broadening for a
    given window [(lo, hi)], the energies it returns are, in loop order and
    times [Hartree], the eigenvalues [e[k,a] - mu] between [lo/Hartree] and
    [hi/Hartree], and there is one covalent energy per energy. *)
Theorem covalent_energy_energies (c : Calc) (b : MullikenBondAnalysis)
  (mode : string) (i j : nat) (lo hi : R) (npts : nat) (x y : list R) :
  wf_state (st c) → MullikenBondAnalysis_init c = Ok b →
  get_covalent_energy Hartree broaden b mode i j None (Some (lo, hi)) npts
    = Ok (x, y) →
  x = (λ v, v * Hartree)
        <$> filter (λ en, lo / Hartree <= en ∧ en <= hi / Hartree)
              (mjoin (cov_energy (st c))) ∧
  length y = length x.
Proof.
  intros Hs Hinit. destruct (cov_shape c b Hs Hinit) as [Hc Hshape]. subst c.
  unfold get_covalent_energy. simpl.
  intros (md & _ & (xy & Hxy & (u & _ & [= <- <-])%bind_Ok)%bind_Ok)%bind_Ok.
  destruct xy as [x0 y0].
  pose proof (cov_loop_resolved b md i j (lo / Hartree) (hi / Hartree) ([], [])
                Hshape) as Hloop.
  unfold cov_energy in Hloop at 1. rewrite Hloop in Hxy.
  apply cov_loop_Ok in Hxy as [-> Hlen]. simpl in *.
  rewrite (cov_cells_energies _ _ Hshape) in *.
  split; [done|]. by rewrite !length_fmap.
Qed.

(** X22.  With a window given, an unknown mode raises [NotImplementedError]
    (for every width) as soon as one eigenvalue lies in the window; if none
    does, the call without broadening returns two empty arrays. *)
Theorem unknown_mode_given_window (c : Calc) (b : MullikenBondAnalysis)
  (mode : string) (i j : nat) (lo hi : R) (npts : nat) :
  wf_state (st c) → MullikenBondAnalysis_init c = Ok b →
  mode ≠ "default"%string → mode ≠ "orbitals"%string →
  mode ≠ "atoms"%string → mode ≠ "angmom"%string →
  let inside := λ en, lo / Hartree <= en ∧ en <= hi / Hartree in
  (Exists inside (mjoin (cov_energy (st c))) →
   ∀ width, get_covalent_energy Hartree broaden b mode i j width
              (Some (lo, hi)) npts = Raise NotImplementedError) ∧
  (Forall (λ en, ¬ inside en) (mjoin (cov_energy (st c))) →
   get_covalent_energy Hartree broaden b mode i j None (Some (lo, hi)) npts
   = Ok ([], [])).
Proof.
  intros Hs Hinit H1 H2 H3 H4 inside.
  destruct (cov_shape c b Hs Hinit) as [Hc Hshape]. subst c.
  pose proof (cov_loop_resolved b ModeUnknown i j (lo / Hartree) (hi / Hartree)
                ([], []) Hshape) as Hloop.
  unfold cov_energy in Hloop at 1.
  rewrite <- (cov_cells_energies _ _ Hshape).
  split.
  - intros Hex%Exists_fmap width. unfold get_covalent_energy. simpl.
    rewrite cov_prepare_unknown by done.
    change (Ok ModeUnknown ≫= ?f) with (f ModeUnknown). cbv beta. rewrite Hloop.
    by rewrite (cov_loop_raise _ _ _ _ _ NotImplementedError).
  - intros Hall. unfold get_covalent_energy. simpl.
    rewrite cov_prepare_unknown by done.
    change (Ok ModeUnknown ≫= ?f) with (f ModeUnknown). cbv beta. rewrite Hloop.
    rewrite cov_loop_skip; [done|].
    apply Forall_forall. intros cl Hcl. rewrite Forall_forall in Hall.
    apply Hall. by apply list_elem_of_fmap_2.
Qed.

(** X23.  Whenever [get_covalent_energy] returns without broadening for the
    default window, it returns every eigenvalue [e[k,a] - mu] (times
    [Hartree], in loop order) and one covalent energy per eigenvalue. *)
Theorem covalent_energy_default_window (c : Calc) (b : MullikenBondAnalysis)
  (mode : string) (i j : nat) (npts : nat) (x y : list R) :
  wf_state (st c) → MullikenBondAnalysis_init c = Ok b →
  get_covalent_energy Hartree broaden b mode i j None None npts = Ok (x, y) →
  x = (λ v, v * Hartree) <$> mjoin (cov_energy (st c)) ∧ length y = length x.
Proof.
  intros Hs Hinit. destruct (cov_shape c b Hs Hinit) as [Hc Hshape]. subst c.
  unfold get_covalent_energy. simpl.
  intros (mnmx & (lo & Hlo & (hi & Hhi & [= <-])%bind_Ok)%bind_Ok & Hrest)%bind_Ok.
  apply bind_Ok in Hrest
    as (md & _ & (xy & Hxy & (u & _ & [= <- <-])%bind_Ok)%bind_Ok).
  destruct xy as [x0 y0].
  pose proof (cov_loop_resolved b md i j (lo - 1e-6) (hi + 1e-6) ([], [])
                Hshape) as Hloop.
  unfold cov_energy in Hloop at 1. rewrite Hloop in Hxy.
  apply cov_loop_Ok in Hxy as [-> Hlen]. simpl in *.
  rewrite (cov_cells_energies _ _ Hshape) in *.
  apply np_min_le in Hlo. apply np_max_ge in Hhi.
  fold (cov_energy (st (calc (bond_base b)))) in Hlo, Hhi.
  rewrite filter_Forall_id in *.
  - split; [done|]. by rewrite !length_fmap.
  - rewrite Forall_forall in Hlo, Hhi. apply Forall_forall. intros en Hen.
    specialize (Hlo en Hen). specialize (Hhi en Hen). lra.
  - rewrite Forall_forall in Hlo, Hhi. apply Forall_forall. intros en Hen.
    specialize (Hlo en Hen). specialize (Hhi en Hen). lra.
Qed.

(** X24.  With the default window an unknown mode never returns: the call
    raises [ValueError] when there are no eigenvalues and
    [NotImplementedError] otherwise. *)
Theorem unknown_mode_default_window (c : Calc) (b : MullikenBondAnalysis)
  (mode : string) (i j : nat) (width : option R) (npts : nat) :
  wf_state (st c) → MullikenBondAnalysis_init c = Ok b →
  mode ≠ "default"%string → mode ≠ "orbitals"%string →
  mode ≠ "atoms"%string → mode ≠ "angmom"%string →
  get_covalent_energy Hartree broaden b mode i j width None npts
  = if decide (mjoin (st_e (st c)) = []) then Raise ValueError
    else Raise NotImplementedError.
Proof.
  intros Hs Hinit H1 H2 H3 H4.
  destruct (cov_shape c b Hs Hinit) as [Hc Hshape]. subst c.
  unfold get_covalent_energy. simpl.
  fold (cov_energy (st (calc (bond_base b)))).
  assert (mjoin (st_e (st (calc (bond_base b)))) = []
          ↔ mjoin (cov_energy (st (calc (bond_base b)))) = []) as Hiff.
  { unfold cov_energy. generalize (st_e (st (calc (bond_base b)))).
    intros e. induction e as [|row e IH]; [done|].
    rewrite fmap_cons, !mjoin_cons. split.
    - intros [-> He]%app_eq_nil. simpl. by apply IH.
    - intros [Hrow He]%app_eq_nil. apply fmap_nil_inv in Hrow as ->.
      simpl. by apply IH. }
  case_decide as Hnil.
  - apply Hiff in Hnil. by rewrite Hnil.
  - rewrite Hiff in Hnil.
    destruct (np_min (mjoin (cov_energy _))) as [lo|] eqn:Hlo;
      [|by destruct (mjoin (cov_energy _))].
    destruct (np_max (mjoin (cov_energy _))) as [hi|] eqn:Hhi;
      [|by destruct (mjoin (cov_energy _))].
    simpl. rewrite cov_prepare_unknown by done.
    change (Ok ModeUnknown ≫= ?f) with (f ModeUnknown). cbv beta.
    pose proof (cov_loop_resolved b ModeUnknown i j (lo - 1e-6) (hi + 1e-6)
                  ([], []) Hshape) as Hloop.
    unfold cov_energy in Hloop at 1. unfold cov_energy at 1. rewrite Hloop.
    rewrite (cov_loop_raise _ _ _ _ _ NotImplementedError); [done..|].
    pose proof (np_min_elem _ _ Hlo) as Hin.
    rewrite <- (cov_cells_energies _ _ Hshape) in Hin.
    apply list_elem_of_fmap in Hin as (cl & Hcl & Hin).
    apply Exists_exists. exists cl. split; [done|]. rewrite <- Hcl.
    apply np_max_ge in Hhi. rewrite Forall_forall in Hhi.
    specialize (Hhi lo (np_min_elem _ _ Hlo)). lra.
Qed.

End Covalent.

(** ** The properties on the example systems *)

Lemma clip_m_init : MullikenAnalysis_init clip_calc = Ok clip_m.
Proof. vm_compute. repeat (f_equal; try lra). Qed.

Lemma empty_m_init : MullikenAnalysis_init empty_calc = Ok empty_m.
Proof. reflexivity. Qed.

Lemma ref_state_wf : wf_state ref_state.
Proof. split; repeat (split || constructor). Qed.

Lemma ref_bond_init : MullikenBondAnalysis_init ref_calc = Ok ref_bond.
Proof. vm_compute. repeat (f_equal; try lra). Qed.

Lemma ex_H0_hermitian : Forall hermitian (st_H0 (st ex_calc)).
Proof. repeat constructor. apply (hermitian_2x2 1 (-1) Ci). Qed.

Lemma ex_S_hermitian : Forall hermitian (st_S (st ex_calc)).
Proof.
  repeat constructor.
  replace (mkC 0 (-0.5)) with (Cconj (mkC 0 0.5))
    by (apply C_eq; unfold Cconj; simpl; lra).
  apply (hermitian_2x2 1 1 (mkC 0 0.5)).
Qed.

Lemma basis_mulliken_value_witness :
  wf_state (st ex_calc) ∧ MullikenAnalysis_init ex_calc = Ok ex_m ∧
  get_basis_mulliken ex_m 0
  = if decide (0 < st_norb (st ex_calc))%nat
    then Ok (diag_value (st ex_calc) 0) else Raise IndexError.
Proof.
  split; [exact ex_state_wf|]. split; [exact ex_m_init|].
  exact (basis_mulliken_value ex_calc ex_m 0 ex_state_wf ex_m_init).
Defined.

Lemma wf_mulliken_weight_witness :
  wk ex_m !! 0%nat = Some 1 ∧
  (∀ v, get_basis_wf_mulliken ex_m 1 0 1 false = Ok v →
        get_basis_wf_mulliken ex_m 1 0 1 true = Ok (1 * v)) ∧
  (∀ v, get_atom_wf_mulliken ex_m 0 0 1 false = Ok v →
        get_atom_wf_mulliken ex_m 0 0 1 true = Ok (1 * v)).
Proof.
  split; [reflexivity|].
  apply (wf_mulliken_weight ex_m 0 1 0 1 1). reflexivity.
Defined.

Lemma angmom_edge_cases_witness :
  el_atoms (el (calc ex_m)) !! 0%nat = Some (mkAtom 0 1 1) ∧
  (no (mkAtom 0 1 1) = 1%nat → ∀ s, diag ex_m !! o1 (mkAtom 0 1 1) = Some s →
     get_atom_all_angmom_mulliken ex_m 0 = Ok [s; 0; 0]).
Proof.
  split; [reflexivity|].
  apply (angmom_edge_cases ex_m 0 (mkAtom 0 1 1)). reflexivity.
Defined.

Lemma atoms_mulliken_clips_witness :
  el_atoms (el (calc clip_m)) !! 1%nat = Some (mkAtom 1 2 1) ∧
  (0 < 2)%nat ∧ (length (diag clip_m) < 1 + 2)%nat ∧
  get_atom_mulliken clip_m 1 = Raise IndexError ∧
  get_atoms_mulliken clip_m !! 1%nat
  = Some (Rsum (drop 1 (diag clip_m)) - 1).
Proof.
  split; [reflexivity|]. split; [lia|]. split; [simpl; lia|].
  apply (atoms_mulliken_clips clip_m 1 (mkAtom 1 2 1));
    [reflexivity | simpl; lia | simpl; lia].
Defined.

Lemma dos_init_bounds_witness :
  DensityOfStates_init 1 ex_calc = Ok ex_dos ∧
  eflat ex_dos ≠ [] ∧ emin ex_dos <= emax ex_dos ∧
  Forall (Forall (λ x, emin ex_dos <= x <= emax ex_dos)) (dos_e ex_dos).
Proof.
  split; [exact ex_dos_init|]. exact (dos_init_bounds 1 ex_calc ex_dos ex_dos_init).
Defined.

Lemma dos_init_empty_witness :
  MullikenAnalysis_init empty_calc = Ok empty_m ∧
  mjoin (st_e (st empty_calc)) = [] ∧
  DensityOfStates_init 27.2114 empty_calc = Raise ValueError.
Proof.
  split; [exact empty_m_init|]. split; [reflexivity|].
  exact (dos_init_empty 27.2114 empty_calc empty_m empty_m_init eq_refl).
Defined.

Lemma ldos_shapes_witness :
  get_local_density_of_states box_broaden ex_dos true 1 None 2 = Ok ex_ldos ∧
  (0 < N (dos_base ex_dos))%nat ∧
  shape2 (N (dos_base ex_dos)) 2 [[2; 2]; [2; 2]].
Proof.
  split; [exact ex_ldos_value|].
  destruct (ldos_shapes box_broaden ex_dos true 1 None 2 _ _ _ ex_ldos_value)
    as (H1 & H2 & _).
  split; [exact H1|exact H2].
Defined.

Lemma projected_ldos_needs_state_witness :
  get_local_density_of_states box_broaden ex_dos true 1 None 2 = Ok ex_ldos ∧
  ∃ k a row x, dos_e ex_dos !! k = Some row ∧ row !! a = Some x ∧
               (dos_window ex_dos None).1 <= x <= (dos_window ex_dos None).2.
Proof.
  split; [exact ex_ldos_value|].
  exact (projected_ldos_needs_state box_broaden ex_dos 1 None 2 _ ex_ldos_value).
Defined.

Lemma dos_raw_output_witness :
  wf_state (st ex_calc) ∧ DensityOfStates_init 1 ex_calc = Ok ex_dos ∧
  el_norb (el ex_calc) = st_norb (st ex_calc) ∧
  get_density_of_states box_broaden ex_dos false false true 1 None 2
  = Ok (DosOccu (mjoin (transpose (dos_e ex_dos)))
          (mjoin (replicate (st_norb (st ex_calc)) (st_wk (st ex_calc))))
          (mjoin (transpose (st_f (st ex_calc))))).
Proof.
  split; [exact ex_state_wf|]. split; [exact ex_dos_init|].
  split; [reflexivity|].
  exact (dos_raw_output 1 box_broaden ex_calc ex_dos true 1 None 2 ex_state_wf
           ex_dos_init eq_refl).
Defined.

Lemma ex_promotion_out_of_range :
  get_promotion_energy 27.2114 ex_bond 5 = Raise IndexError.
Proof. reflexivity. Qed.

Lemma promotion_energy_errors_witness :
  get_promotion_energy 27.2114 ex_bond 5 = Raise IndexError ∧
  IndexError = IndexError.
Proof.
  split; [exact ex_promotion_out_of_range|].
  exact (promotion_energy_errors 27.2114 ex_bond 5 IndexError
           ex_promotion_out_of_range).
Defined.

Lemma ref_bond_reference (mu : nat) :
  (0 ≤ mu < 0 + 1)%nat →
  ∃ o, el_orb (el (calc (bond_base ref_bond))) !! mu = Some o ∧
       diag (bond_base ref_bond) !! mu = Some (free_population o).
Proof.
  intros Hmu. assert (mu = 0%nat) as -> by lia.
  exists (mkOrb 1 0 1). split; reflexivity.
Qed.

Lemma promotion_energy_at_reference_witness :
  MullikenBondAnalysis_init ref_calc = Ok ref_bond ∧
  el_atoms (el (calc (bond_base ref_bond))) !! 0%nat = Some (mkAtom 0 1 1) ∧
  get_promotion_energy 27.2114 ref_bond 0 = Ok 0.
Proof.
  split; [exact ref_bond_init|]. split; [reflexivity|].
  exact (promotion_energy_at_reference 27.2114 ref_bond 0 (mkAtom 0 1 1)
           eq_refl ref_bond_reference).
Defined.

Lemma ex_atom_energy_out_of_range :
  get_atom_energy 27.2114 0.529177 ex_bond 5 = Raise IndexError.
Proof. reflexivity. Qed.

Lemma atom_energy_errors_witness :
  get_atom_energy 27.2114 0.529177 ex_bond 5 = Raise IndexError ∧
  (IndexError = IndexError ∨ IndexError = AssertionError).
Proof.
  split; [exact ex_atom_energy_out_of_range|].
  exact (atom_energy_errors 27.2114 0.529177 ex_bond 5 IndexError
           ex_atom_energy_out_of_range).
Defined.

Lemma bond_init_orbital_table_witness :
  wf_state (st ex_calc) ∧
  ((st_norb (st ex_calc) ≤ el_norb (el ex_calc))%nat →
     ∃ b, MullikenBondAnalysis_init ex_calc = Ok b) ∧
  ((el_norb (el ex_calc) < st_norb (st ex_calc))%nat →
     MullikenBondAnalysis_init ex_calc = Raise IndexError).
Proof.
  split; [exact ex_state_wf|].
  exact (bond_init_orbital_table ex_calc ex_state_wf).
Defined.

Lemma HS_hermitian_witness :
  wf_state (st ex_calc) ∧ MullikenBondAnalysis_init ex_calc = Ok ex_bond ∧
  Forall hermitian (st_H0 (st ex_calc)) ∧ Forall hermitian (st_S (st ex_calc)) ∧
  Forall hermitian (HS ex_bond).
Proof.
  repeat (split; [exact ex_state_wf || exact ex_bond_init
                  || exact ex_H0_hermitian || exact ex_S_hermitian|]).
  exact (HS_hermitian ex_calc ex_bond ex_state_wf ex_bond_init
           ex_H0_hermitian ex_S_hermitian).
Defined.

Lemma Rabs_tiny x : x = 0 → Rabs x < 1e-12.
Proof. intros ->. rewrite Rabs_R0. lra. Qed.

Lemma ex_covalent_orbitals :
  get_covalent_energy 27.2114 box_broaden ex_bond "orbitals" 0 0 None
    (Some (-30, 0)) 501 = Ok ([-1 * 27.2114], [0]).
Proof.
  unfold get_covalent_energy. simpl.
  rewrite decide_True by lra. simpl.
  rewrite decide_False by lra. simpl.
  rewrite bool_decide_eq_true_2.
  - simpl. repeat (f_equal; try lra).
  - repeat constructor. apply Rabs_tiny. vm_compute. lra.
Qed.

Lemma covalent_energy_energies_witness :
  wf_state (st ex_calc) ∧ MullikenBondAnalysis_init ex_calc = Ok ex_bond ∧
  get_covalent_energy 27.2114 box_broaden ex_bond "orbitals" 0 0 None
    (Some (-30, 0)) 501 = Ok ([-1 * 27.2114], [0]) ∧
  [-1 * 27.2114]
  = (λ v, v * 27.2114)
      <$> filter (λ en, -30 / 27.2114 <= en ∧ en <= 0 / 27.2114)
            (mjoin (cov_energy (st ex_calc))) ∧
  length [0] = length [-1 * 27.2114].
Proof.
  split; [exact ex_state_wf|]. split; [exact ex_bond_init|].
  split; [exact ex_covalent_orbitals|].
  exact (covalent_energy_energies 27.2114 box_broaden ex_calc ex_bond
           "orbitals" 0 0 (-30) 0 501 _ _ ex_state_wf ex_bond_init
           ex_covalent_orbitals).
Defined.

Lemma bogus_mode_unknown :
  "bogus"%string ≠ "default"%string ∧ "bogus"%string ≠ "orbitals"%string ∧
  "bogus"%string ≠ "atoms"%string ∧ "bogus"%string ≠ "angmom"%string.
Proof. repeat split; discriminate. Qed.

Lemma unknown_mode_given_window_witness :
  wf_state (st ex_calc) ∧ MullikenBondAnalysis_init ex_calc = Ok ex_bond ∧
  (Exists (λ en, -30 / 27.2114 <= en ∧ en <= 0 / 27.2114)
     (mjoin (cov_energy (st ex_calc))) →
   ∀ width, get_covalent_energy 27.2114 box_broaden ex_bond "bogus" 0 0 width
              (Some (-30, 0)) 501 = Raise NotImplementedError) ∧
  (Forall (λ en, ¬ (-30 / 27.2114 <= en ∧ en <= 0 / 27.2114))
     (mjoin (cov_energy (st ex_calc))) →
   get_covalent_energy 27.2114 box_broaden ex_bond "bogus" 0 0 None
     (Some (-30, 0)) 501 = Ok ([], [])).
Proof.
  split; [exact ex_state_wf|]. split; [exact ex_bond_init|].
  exact (unknown_mode_given_window 27.2114 box_broaden ex_calc ex_bond "bogus"
           0 0 (-30) 0 501 ex_state_wf ex_bond_init
           (proj1 bogus_mode_unknown) (proj1 (proj2 bogus_mode_unknown))
           (proj1 (proj2 (proj2 bogus_mode_unknown)))
           (proj2 (proj2 (proj2 bogus_mode_unknown)))).
Defined.

Lemma ex_covalent_default :
  get_covalent_energy 27.2114 box_broaden ex_bond "orbitals" 0 0 None None 501
  = Ok ([-1 * 27.2114; 1 * 27.2114], [0; 0]).
Proof.
  unfold get_covalent_energy. simpl.
  rewrite Rmin_left, Rmax_right by lra.
  rewrite decide_True by lra. simpl.
  rewrite decide_True by lra. simpl.
  rewrite bool_decide_eq_true_2.
  - simpl. repeat (f_equal; try lra).
  - repeat constructor; apply Rabs_tiny; vm_compute; lra.
Qed.

Lemma covalent_energy_default_window_witness :
  wf_state (st ex_calc) ∧ MullikenBondAnalysis_init ex_calc = Ok ex_bond ∧
  get_covalent_energy 27.2114 box_broaden ex_bond "orbitals" 0 0 None None 501
  = Ok ([-1 * 27.2114; 1 * 27.2114], [0; 0]) ∧
  [-1 * 27.2114; 1 * 27.2114]
  = (λ v, v * 27.2114) <$> mjoin (cov_energy (st ex_calc)) ∧
  length [0; 0] = length [-1 * 27.2114; 1 * 27.2114].
Proof.
  split; [exact ex_state_wf|]. split; [exact ex_bond_init|].
  split; [exact ex_covalent_default|].
  exact (covalent_energy_default_window 27.2114 box_broaden ex_calc ex_bond
           "orbitals" 0 0 501 _ _ ex_state_wf ex_bond_init ex_covalent_default).
Defined.

Lemma unknown_mode_default_window_witness :
  wf_state (st ex_calc) ∧ MullikenBondAnalysis_init ex_calc = Ok ex_bond ∧
  get_covalent_energy 27.2114 box_broaden ex_bond "bogus" 0 0 (Some 0.1) None 501
  = if decide (mjoin (st_e (st ex_calc)) = []) then Raise ValueError
    else Raise NotImplementedError.
Proof.
  split; [exact ex_state_wf|]. split; [exact ex_bond_init|].
  exact (unknown_mode_default_window 27.2114 box_broaden ex_calc ex_bond "bogus"
           0 0 (Some 0.1) 501 ex_state_wf ex_bond_init
           (proj1 bogus_mode_unknown) (proj1 (proj2 bogus_mode_unknown))
           (proj1 (proj2 (proj2 bogus_mode_unknown)))
           (proj2 (proj2 (proj2 bogus_mode_unknown)))).
Defined.
